(** * Exchange state model of loopring_v3.js ([src/types.ts])

    A shallow embedding of the classes [StorageLeaf], [BalanceLeaf],
    [AccountLeaf] and [ExchangeState] and the properties of their
    get-or-create accessors.

    Conventions of the embedding:
    - a JavaScript [number] that the code uses as an identifier or index is an
      integer of [Z] (the code never produces a fractional value itself);
      [BN] values are integers of [Z];
    - class instances live in a store and are denoted by references, so that
      "the same object" is equality of references; [new] appends to the store
      and never reuses a reference;
    - a JS object used as a dictionary ([balances], [storage], the owner maps)
      is a [gmap]; an absent key is JS [undefined];
    - an array or dictionary is held by value in the object that owns it; no
      property below depends on one being shared with a caller;
    - a method is a function of its receiver ([this]) and of the store, and
      returns the new store together with its result. *)

From stdpp Require Import gmap strings list fin_maps.
From Stdlib Require Import ZArith Lia.

Local Open Scope Z_scope.

(** References to objects of the store: positions in a table of objects. *)
Abbreviation ref := nat (only parsing).

(** The two members of [Constants] (file [constants.ts]) that [types.ts]
    reads.  The file is not part of the sources at hand, so both are taken as
    parameters: every result below holds for any address string and any
    tree depth. *)
Class Constants := {
  zeroAddress : string;
  BINARY_TREE_DEPTH_STORAGE : nat
}.

(** ** Leaves *)

Module StorageLeaf.
Record t := mk {
  data : Z;
  storageID : Z;
  gasFee : Z;
  cancelled : Z;
  tokenSID : Z;
  tokenBID : Z;
  forward : Z
}.

(** [constructor()] *)
Definition new : t :=
  {| data := 0; storageID := 0; gasFee := 0; cancelled := 0;
     tokenSID := 0; tokenBID := 0; forward := 1 |}.
End StorageLeaf.

Module BalanceLeaf.
Record t := mk { balance : Z }.

(** [constructor()] *)
Definition new : t := {| balance := 0 |}.

(** [init(balance)]: the decimal round trip [new BN(balance.toString(10))]
    copies the integer. *)
Definition init (balance : Z) (this : t) : t := {| balance := balance |}.
End BalanceLeaf.

(** ** Request records kept in the queues of [ExchangeState] *)

Module Deposit.
Record t := mk {
  exchange : string;
  blockIdx : option Z;
  requestIdx : option Z;
  timestamp : Z;
  owner : string;
  token : Z;
  amount : Z;
  fee : Z;
  transactionHash : string
}.
End Deposit.

Module OnchainWithdrawal.
Record t := mk {
  exchange : string;
  blockIdx : option Z;
  requestIdx : option Z;
  withdrawalIdx : Z;
  timestamp : Z;
  accountID : Z;
  tokenID : Z;
  amountRequested : Z;
  amountWithdrawn : option Z;
  transactionHash : string
}.
End OnchainWithdrawal.

(** ** Accounts *)

Module AccountLeaf.
(** The fields of the class.  [balances] and [storage] map a key to the
    reference of the leaf stored under it.  The optional members
    [balancesMerkleTree] and [storageTree] are never assigned by this file
    and are left out. *)
Record t := mk {
  exchange : string;
  accountId : Z;
  owner : string;
  publicKeyX : string;
  publicKeyY : string;
  appKeyPublicKeyX : string;
  appKeyPublicKeyY : string;
  disableAppKeySpotTrade : Z;
  disableAppKeyWithdraw : Z;
  disableAppKeyTransferToOther : Z;
  nonce : Z;
  balances : gmap Z ref;
  storage : gmap Z ref
}.

Definition set_balances (m : gmap Z ref) (a : t) : t :=
  mk (exchange a) (accountId a) (owner a) (publicKeyX a) (publicKeyY a)
     (appKeyPublicKeyX a) (appKeyPublicKeyY a) (disableAppKeySpotTrade a)
     (disableAppKeyWithdraw a) (disableAppKeyTransferToOther a) (nonce a)
     m (storage a).

Definition set_storage (m : gmap Z ref) (a : t) : t :=
  mk (exchange a) (accountId a) (owner a) (publicKeyX a) (publicKeyY a)
     (appKeyPublicKeyX a) (appKeyPublicKeyY a) (disableAppKeySpotTrade a)
     (disableAppKeyWithdraw a) (disableAppKeyTransferToOther a) (nonce a)
     (balances a) m.
End AccountLeaf.

(** ** The object store

    One growing table per class; a reference is an index into the table of its
    class.  TypeScript's typing keeps the three kinds apart. *)
Record Heap := mkHeap {
  accountObjs : list AccountLeaf.t;
  balanceObjs : list BalanceLeaf.t;
  storageObjs : list StorageLeaf.t
}.

Definition emptyHeap : Heap := mkHeap [] [] [].

Definition allocAccount (a : AccountLeaf.t) (h : Heap) : ref * Heap :=
  (length (accountObjs h),
   mkHeap (accountObjs h ++ [a]) (balanceObjs h) (storageObjs h)).

Definition allocBalance (b : BalanceLeaf.t) (h : Heap) : ref * Heap :=
  (length (balanceObjs h),
   mkHeap (accountObjs h) (balanceObjs h ++ [b]) (storageObjs h)).

Definition allocStorage (s : StorageLeaf.t) (h : Heap) : ref * Heap :=
  (length (storageObjs h),
   mkHeap (accountObjs h) (balanceObjs h) (storageObjs h ++ [s])).

Definition writeAccount (this : ref) (a : AccountLeaf.t) (h : Heap) : Heap :=
  mkHeap (<[this := a]> (accountObjs h)) (balanceObjs h) (storageObjs h).

Module AccountLeafOps.
Import AccountLeaf.

Section WithConstants.
Context `{Constants}.

(** [constructor(accountId)]: the field values of a new account. *)
Definition fresh (accountId : Z) : t :=
  {| exchange := zeroAddress;
     accountId := accountId;
     owner := zeroAddress;
     publicKeyX := "0";
     publicKeyY := "0";
     appKeyPublicKeyX := "0";
     appKeyPublicKeyY := "0";
     disableAppKeySpotTrade := 0;
     disableAppKeyWithdraw := 0;
     disableAppKeyTransferToOther := 0;
     nonce := 0;
     balances := ∅;
     storage := ∅ |}.

(** [new AccountLeaf(accountId)] *)
Definition new (accountId : Z) (h : Heap) : ref * Heap :=
  allocAccount (fresh accountId) h.

(** The assignments of [init] on the fields of the receiver.  The three
    [disableAppKey...] flags are not assigned and keep their values; an
    omitted [balances] or [storage] argument defaults to the empty
    object. *)
Definition init_fields (owner publicKeyX publicKeyY : string)
    (appKeyPublicKeyX appKeyPublicKeyY : string) (nonce : Z)
    (balances storage : option (gmap Z ref)) (this : t) : t :=
  {| exchange := zeroAddress;
     accountId := 0;
     owner := owner;
     publicKeyX := publicKeyX;
     publicKeyY := publicKeyY;
     appKeyPublicKeyX := appKeyPublicKeyX;
     appKeyPublicKeyY := appKeyPublicKeyY;
     disableAppKeySpotTrade := AccountLeaf.disableAppKeySpotTrade this;
     disableAppKeyWithdraw := AccountLeaf.disableAppKeyWithdraw this;
     disableAppKeyTransferToOther :=
       AccountLeaf.disableAppKeyTransferToOther this;
     nonce := nonce;
     balances := default ∅ balances;
     storage := default ∅ storage |}.

(** [this.init(...)]; [None] when [this] is not an account of the store. *)
Definition init (this : ref) (owner publicKeyX publicKeyY : string)
    (appKeyPublicKeyX appKeyPublicKeyY : string) (nonce : Z)
    (balances storage : option (gmap Z ref)) (h : Heap) : option Heap :=
  a ← accountObjs h !! this;
  Some (writeAccount this
          (init_fields owner publicKeyX publicKeyY appKeyPublicKeyX
             appKeyPublicKeyY nonce balances storage a) h).

(** [this.getBalance(tokenID)] *)
Definition getBalance (this : ref) (tokenID : Z) (h : Heap)
    : option (ref * Heap) :=
  a ← accountObjs h !! this;
  match AccountLeaf.balances a !! tokenID with
  | Some l => Some (l, h)
  | None =>
      let '(l, h1) := allocBalance BalanceLeaf.new h in
      Some (l, writeAccount this
                 (set_balances (<[tokenID := l]> (AccountLeaf.balances a)) a)
                 h1)
  end.

(** [storageID % 2 ** Constants.BINARY_TREE_DEPTH_STORAGE]: the remainder
    of JavaScript takes the sign of the dividend, as [Z.rem] does. *)
Definition address (storageID : Z) : Z :=
  Z.rem storageID (2 ^ Z.of_nat BINARY_TREE_DEPTH_STORAGE).

(** [this.getStorage(storageID)] *)
Definition getStorage (this : ref) (storageID : Z) (h : Heap)
    : option (ref * Heap) :=
  a ← accountObjs h !! this;
  let address := address storageID in
  match AccountLeaf.storage a !! address with
  | Some l => Some (l, h)
  | None =>
      let '(l, h1) := allocStorage StorageLeaf.new h in
      Some (l, writeAccount this
                 (set_storage (<[address := l]> (AccountLeaf.storage a)) a)
                 h1)
  end.
End WithConstants.
End AccountLeafOps.

(** ** The exchange state *)

Module ExchangeState.
Section Fields.
(** The element type of [processedRequests], declared [any[]]. *)
Variable any : Type.

(** The fields of the class; [accounts] is the array of account
    references. *)
Record t := mk {
  exchange : string;
  accounts : list ref;
  accountIdToOwner : gmap Z string;
  ownerToAccountId : gmap string Z;
  deposits : list Deposit.t;
  onchainWithdrawals : list OnchainWithdrawal.t;
  processedRequests : list any
}.

Definition set_accounts (l : list ref) (s : t) : t :=
  mk (exchange s) l (accountIdToOwner s) (ownerToAccountId s)
     (deposits s) (onchainWithdrawals s) (processedRequests s).
End Fields.

Arguments mk {any}.
Arguments exchange {any}.
Arguments accounts {any}.
Arguments accountIdToOwner {any}.
Arguments ownerToAccountId {any}.
Arguments deposits {any}.
Arguments onchainWithdrawals {any}.
Arguments processedRequests {any}.
Arguments set_accounts {any}.

Section Methods.
Context `{Constants} {any : Type}.

(** A configuration: the object store and the fields of [this]. *)
Definition config : Type := Heap * t any.

(** [this.accounts.length] *)
Definition accounts_length (c : config) : Z :=
  Z.of_nat (length (accounts c.2)).

(** The loop body:
    [this.accounts.push(new AccountLeaf(this.accounts.length))] *)
Definition push_new (c : config) : config :=
  let '(l, h1) := AccountLeafOps.new (accounts_length c) c.1 in
  (h1, set_accounts (accounts c.2 ++ [l]) c.2).

(** [while (accountID >= this.accounts.length) { ... }]; the loop is cut
    after [fuel] iterations, [None] telling that it was still running. *)
Fixpoint getAccount_loop (fuel : nat) (accountID : Z) (c : config)
    : option config :=
  if bool_decide (accountID >= accounts_length c) then
    match fuel with
    | O => None
    | S fuel' => getAccount_loop fuel' accountID (push_new c)
    end
  else Some c.

(** [this.accounts[accountID]]; [None] is JS [undefined]. *)
Definition accounts_at (accountID : Z) (c : config) : option ref :=
  if bool_decide (0 <= accountID)
  then accounts c.2 !! Z.to_nat accountID
  else None.

(** The number of iterations that [getAccount] needs from [c]. *)
Definition getAccount_fuel (accountID : Z) (c : config) : nat :=
  Z.to_nat (accountID + 1 - accounts_length c).

(** [this.getAccount(accountID)]: the returned value and the new
    configuration. *)
Definition getAccount (accountID : Z) (c : config)
    : option (option ref * config) :=
  c' ← getAccount_loop (getAccount_fuel accountID c) accountID c;
  Some (accounts_at accountID c', c').

(** [new ExchangeState(exchange, accounts)]; an omitted [accounts]
    argument ([None]) defaults to the empty array. *)
Definition new (exchange : string) (accounts : option (list ref))
    (h : Heap) : option config :=
  let this :=
    {| exchange := exchange;
       accounts := default [] accounts;
       accountIdToOwner := ∅;
       ownerToAccountId := ∅;
       deposits := [];
       onchainWithdrawals := [];
       processedRequests := [] |} in
  r ← getAccount 0 (h, this);
  Some r.2.

(** The configurations that the constructor and [getAccount] produce. *)
Inductive reachable : config → Prop :=
| reachable_new exchange accounts h c :
    new exchange accounts h = Some c → reachable c
| reachable_getAccount accountID c r :
    reachable c → getAccount accountID c = Some r → reachable r.2.

(** The account object stored at index [id] of [accounts]. *)
Definition account_at (id : Z) (c : config) : option AccountLeaf.t :=
  l ← accounts_at id c; accountObjs c.1 !! l.

(** A registered account: one whose owner is not the zero address. *)
Definition registered (id : Z) (c : config) : Prop :=
  ∃ a, account_at id c = Some a ∧ AccountLeaf.owner a ≠ zeroAddress.

(** The two owner maps are inverse to each other. *)
Definition owner_maps_inverse (s : t any) : Prop :=
  ∀ id o, accountIdToOwner s !! id = Some o ↔
          ownerToAccountId s !! o = Some id.

(** [ownerToAccountId[accountIdToOwner[id]]] *)
Definition owner_round_trip (id : Z) (s : t any) : option Z :=
  o ← accountIdToOwner s !! id; ownerToAccountId s !! o.
End Methods.
End ExchangeState.

(** ** Concrete constants and stores used by the examples *)

(** Modelled from the spec: the file [constants.ts] is missing; the spec's
    scenarios use a storage tree of depth 14 (addresses 0..16383) and a
    well-known zero address. *)
Definition loopring_constants : Constants :=
  {| zeroAddress := "0x0000000000000000000000000000000000000000";
     BINARY_TREE_DEPTH_STORAGE := 14 |}.

(** A store holding one account, made by [new AccountLeaf(5)]. *)
Definition heap_account5 : Heap :=
  (AccountLeafOps.new (H := loopring_constants) 5 emptyHeap).2.

(** A store holding one account, made by [new AccountLeaf(0)] and then
    registered to an owner by [init]. *)
Definition heap_owned : option Heap :=
  AccountLeafOps.init (H := loopring_constants) 0%nat
    "0x00000000000000000000000000000000000000aa" "1" "2" "0" "0" 0 None None
    (AccountLeafOps.new (H := loopring_constants) 0 emptyHeap).2.

(** The fields of [this] in [new ExchangeState("0xEXC")] before the
    constructor calls [getAccount(0)]. *)
Definition state_blank : ExchangeState.t unit :=
  {| ExchangeState.exchange := "0xEXC";
     ExchangeState.accounts := [];
     ExchangeState.accountIdToOwner := ∅;
     ExchangeState.ownerToAccountId := ∅;
     ExchangeState.deposits := [];
     ExchangeState.onchainWithdrawals := [];
     ExchangeState.processedRequests := [] |}.

(** The state made by [new ExchangeState("0xEXC")] in the empty store: the
    blank fields after one turn of the loop of [getAccount(0)]. *)
Definition config_fresh : ExchangeState.config (any := unit) :=
  ExchangeState.push_new (H := loopring_constants) (emptyHeap, state_blank).

(** [new ExchangeState("0xEXC", [a])] for the registered account [a] of
    [heap_owned]. *)
Definition config_owned : option (ExchangeState.config (any := unit)) :=
  h ← heap_owned;
  ExchangeState.new (H := loopring_constants) "0xEXC" (Some [0%nat]) h.

(** ** What an accessor may change in the store *)

(** Every balance and storage leaf of [h] is still there, unchanged. *)
Definition leaves_kept (h h' : Heap) : Prop :=
  (∀ r b, balanceObjs h !! r = Some b → balanceObjs h' !! r = Some b) ∧
  (∀ r s, storageObjs h !! r = Some s → storageObjs h' !! r = Some s).

(** Every account of [h] other than [this] is unchanged. *)
Definition others_kept (this : ref) (h h' : Heap) : Prop :=
  ∀ r, r ≠ this → accountObjs h' !! r = accountObjs h !! r.

(** Every account of [h] is still there with the [accountId] it had. *)
Definition accountIds_kept (h h' : Heap) : Prop :=
  ∀ r a, accountObjs h !! r = Some a →
         ∃ a', accountObjs h' !! r = Some a' ∧
               AccountLeaf.accountId a' = AccountLeaf.accountId a.

(** ** What [getAccount] may change in a configuration

    [c'] extends [c]: the accounts array and the table of account objects grow
    at the end only; an entry of the array beyond the old length points to an
    object that did not exist in [c] and has the field values of
    [new AccountLeaf(i)] for its index [i]; the leaves and every other field
    of [this] are as in [c].  Every account object that [c] did not have is a
    newly constructed one. *)
Definition extended `{Constants} {any : Type}
    (c c' : ExchangeState.config (any := any)) : Prop :=
  ExchangeState.accounts c.2 `prefix_of` ExchangeState.accounts c'.2 ∧
  accountObjs c.1 `prefix_of` accountObjs c'.1 ∧
  (∀ (i : nat) (l : ref),
     (length (ExchangeState.accounts c.2) ≤ i)%nat →
     ExchangeState.accounts c'.2 !! i = Some l →
     accountObjs c.1 !! l = None ∧
     accountObjs c'.1 !! l = Some (AccountLeafOps.fresh (Z.of_nat i))) ∧
  (∀ (l : ref) a,
     accountObjs c.1 !! l = None → accountObjs c'.1 !! l = Some a →
     ∃ i, a = AccountLeafOps.fresh i) ∧
  balanceObjs c'.1 = balanceObjs c.1 ∧
  storageObjs c'.1 = storageObjs c.1 ∧
  c'.2 = ExchangeState.set_accounts (ExchangeState.accounts c'.2) c.2.

(** ** Balance leaves in the store *)

Definition writeBalance (this : ref) (b : BalanceLeaf.t) (h : Heap) : Heap :=
  mkHeap (accountObjs h) (<[this := b]> (balanceObjs h)) (storageObjs h).

Module BalanceLeafOps.
(** [this.init(balance)] on a leaf of the store; [None] when [this] is not a
    balance leaf of the store. *)
Definition init (this : ref) (balance : Z) (h : Heap) : option Heap :=
  b ← balanceObjs h !! this;
  Some (writeBalance this (BalanceLeaf.init balance b) h).
End BalanceLeafOps.

(** ** Invariants of states that the code builds itself *)

(** Every entry of the accounts array points to an account object whose
    [accountId] is the index of the entry. *)
Definition dense {any : Type} (c : ExchangeState.config (any := any)) : Prop :=
  ∀ (i : nat) (l : ref),
    ExchangeState.accounts c.2 !! i = Some l →
    ∃ a, accountObjs c.1 !! l = Some a ∧
         AccountLeaf.accountId a = Z.of_nat i.

(** The two dictionaries of an account point to leaves of the store, and no
    leaf is entered under two keys. *)
Definition leaf_maps_wf (h : Heap) (a : AccountLeaf.t) : Prop :=
  (∀ k l, AccountLeaf.balances a !! k = Some l →
          is_Some (balanceObjs h !! l)) ∧
  (∀ k1 k2 l, AccountLeaf.balances a !! k1 = Some l →
              AccountLeaf.balances a !! k2 = Some l → k1 = k2) ∧
  (∀ k l, AccountLeaf.storage a !! k = Some l →
          is_Some (storageObjs h !! l)) ∧
  (∀ k1 k2 l, AccountLeaf.storage a !! k1 = Some l →
              AccountLeaf.storage a !! k2 = Some l → k1 = k2).

(** ** Properties of the leaves and of [AccountLeaf] *)

(** C9: a newly constructed [StorageLeaf] has [forward = 1] and every other
    field zero: [data], [storageID], [gasFee], [cancelled], [tokenSID] and
    [tokenBID]. *)
Theorem StorageLeaf_new_fields :
  StorageLeaf.forward StorageLeaf.new = 1 ∧
  StorageLeaf.data StorageLeaf.new = 0 ∧
  StorageLeaf.storageID StorageLeaf.new = 0 ∧
  StorageLeaf.gasFee StorageLeaf.new = 0 ∧
  StorageLeaf.cancelled StorageLeaf.new = 0 ∧
  StorageLeaf.tokenSID StorageLeaf.new = 0 ∧
  StorageLeaf.tokenBID StorageLeaf.new = 0.
Proof. repeat split. Qed.

Section StoreLemmas.
Implicit Types (h : Heap) (this r : ref) (a : AccountLeaf.t).

Lemma writeAccount_lookup_eq this a a0 h :
  accountObjs h !! this = Some a0 →
  accountObjs (writeAccount this a h) !! this = Some a.
Proof.
  intros Hthis. cbn. apply list_lookup_insert_eq.
  by eapply lookup_lt_Some.
Qed.

Lemma writeAccount_lookup_ne this a h r :
  r ≠ this → accountObjs (writeAccount this a h) !! r = accountObjs h !! r.
Proof. intros Hne. cbn. by apply list_lookup_insert_ne. Qed.

Lemma leaves_kept_refl h : leaves_kept h h.
Proof. by split. Qed.

Lemma leaves_kept_trans h1 h2 h3 :
  leaves_kept h1 h2 → leaves_kept h2 h3 → leaves_kept h1 h3.
Proof. intros [? ?] [? ?]. split; eauto. Qed.

Lemma leaves_kept_allocBalance b h : leaves_kept h (allocBalance b h).2.
Proof.
  split; cbn; [|done]. intros r b0 Hr. by apply lookup_app_l_Some.
Qed.

Lemma leaves_kept_allocStorage s h : leaves_kept h (allocStorage s h).2.
Proof.
  split; cbn; [done|]. intros r s0 Hr. by apply lookup_app_l_Some.
Qed.

Lemma leaves_kept_writeAccount this a h : leaves_kept h (writeAccount this a h).
Proof. by split. Qed.

Lemma allocBalance_fresh b h :
  balanceObjs h !! (allocBalance b h).1 = None ∧
  balanceObjs (allocBalance b h).2 !! (allocBalance b h).1 = Some b.
Proof.
  cbn. split; [by apply lookup_ge_None|].
  rewrite lookup_app_r; [|done]. by rewrite Nat.sub_diag.
Qed.

Lemma allocStorage_fresh s h :
  storageObjs h !! (allocStorage s h).1 = None ∧
  storageObjs (allocStorage s h).2 !! (allocStorage s h).1 = Some s.
Proof.
  cbn. split; [by apply lookup_ge_None|].
  rewrite lookup_app_r; [|done]. by rewrite Nat.sub_diag.
Qed.
End StoreLemmas.

Section AccountLeafProps.
Context `{Constants}.
Import AccountLeaf AccountLeafOps.
Implicit Types (h : Heap) (this : ref) (a : AccountLeaf.t).

(** The two branches of [getBalance]. *)
Lemma getBalance_hit this tokenID h a l :
  accountObjs h !! this = Some a → balances a !! tokenID = Some l →
  getBalance this tokenID h = Some (l, h).
Proof. intros Hthis Hk. unfold getBalance. rewrite Hthis. cbn. by rewrite Hk. Qed.

Lemma getBalance_miss this tokenID h a :
  accountObjs h !! this = Some a → balances a !! tokenID = None →
  getBalance this tokenID h =
    Some (length (balanceObjs h),
          writeAccount this
            (set_balances (<[tokenID := length (balanceObjs h)]> (balances a)) a)
            (allocBalance BalanceLeaf.new h).2).
Proof. intros Hthis Hk. unfold getBalance. rewrite Hthis. cbn. by rewrite Hk. Qed.

(** The two branches of [getStorage]. *)
Lemma getStorage_hit this storageID h a l :
  accountObjs h !! this = Some a →
  storage a !! address storageID = Some l →
  getStorage this storageID h = Some (l, h).
Proof. intros Hthis Hk. unfold getStorage. rewrite Hthis. cbn. by rewrite Hk. Qed.

Lemma getStorage_miss this storageID h a :
  accountObjs h !! this = Some a →
  storage a !! address storageID = None →
  getStorage this storageID h =
    Some (length (storageObjs h),
          writeAccount this
            (set_storage
               (<[address storageID := length (storageObjs h)]> (storage a)) a)
            (allocStorage StorageLeaf.new h).2).
Proof. intros Hthis Hk. unfold getStorage. rewrite Hthis. cbn. by rewrite Hk. Qed.

Lemma address_nonneg storageID :
  0 ≤ storageID →
  address storageID = storageID `mod` 2 ^ Z.of_nat BINARY_TREE_DEPTH_STORAGE.
Proof.
  intros Hs. unfold address. apply Z.rem_mod_nonneg; [done|].
  apply Z.pow_pos_nonneg; lia.
Qed.

(** Writing [this] keeps the [accountId] of every account as long as the
    written record has the [accountId] that [this] had. *)
Lemma accountIds_kept_writeAccount this a a' h :
  accountObjs h !! this = Some a → accountId a' = accountId a →
  accountIds_kept h (writeAccount this a' h).
Proof.
  intros Hthis Hid r a0 Hr. destruct (decide (r = this)) as [->|Hne].
  - exists a'. split; [by eapply writeAccount_lookup_eq|].
    congruence.
  - exists a0. by rewrite writeAccount_lookup_ne.
Qed.

Lemma accountIds_kept_refl h : accountIds_kept h h.
Proof. intros r a Hr. by exists a. Qed.

Lemma getBalance_accountIds_kept this tokenID h a :
  accountObjs h !! this = Some a →
  ∃ l h', getBalance this tokenID h = Some (l, h') ∧ accountIds_kept h h'.
Proof.
  intros Hthis. destruct (balances a !! tokenID) as [l0|] eqn:Hk.
  - exists l0, h. split; [by eapply getBalance_hit|apply accountIds_kept_refl].
  - eexists _, _. split; [by eapply getBalance_miss|].
    by apply (accountIds_kept_writeAccount this a _ (allocBalance _ h).2).
Qed.

Lemma getStorage_accountIds_kept this storageID h a :
  accountObjs h !! this = Some a →
  ∃ l h', getStorage this storageID h = Some (l, h') ∧ accountIds_kept h h'.
Proof.
  intros Hthis. destruct (storage a !! address storageID) as [l0|] eqn:Hk.
  - exists l0, h. split; [by eapply getStorage_hit|apply accountIds_kept_refl].
  - eexists _, _. split; [by eapply getStorage_miss|].
    by apply (accountIds_kept_writeAccount this a _ (allocStorage _ h).2).
Qed.

(** C4: on an account of the store, [getBalance(tokenID)] always returns a
    leaf that is afterwards stored under [tokenID]: the leaf already stored
    there, with the store left as it was, or else a newly allocated leaf of
    balance 0 entered under [tokenID].  No balance entry of the account is
    removed or redirected, and no leaf and no other account is modified. *)
Theorem getBalance_get_or_create this tokenID h a :
  accountObjs h !! this = Some a →
  ∃ l h' a',
    getBalance this tokenID h = Some (l, h') ∧
    accountObjs h' !! this = Some a' ∧
    balances a' !! tokenID = Some l ∧
    (∀ l0, balances a !! tokenID = Some l0 → l = l0 ∧ h' = h) ∧
    (balances a !! tokenID = None →
       balanceObjs h !! l = None ∧
       BalanceLeaf.balance <$> balanceObjs h' !! l = Some 0 ∧
       a' = set_balances (<[tokenID := l]> (balances a)) a) ∧
    (∀ k l0, balances a !! k = Some l0 → balances a' !! k = Some l0) ∧
    leaves_kept h h' ∧ others_kept this h h'.
Proof.
  intros Hthis. destruct (balances a !! tokenID) as [l0|] eqn:Hk.
  - exists l0, h, a. split; [by eapply getBalance_hit|].
    split; [done|]. split; [done|].
    split; [by intros l1 [= ->]|]. split; [done|]. by repeat split.
  - eexists _, _, _. split; [by eapply getBalance_miss|].
    split; [by eapply writeAccount_lookup_eq|].
    split; [cbn; apply lookup_insert_eq|].
    split; [done|].
    split.
    { intros _. destruct (allocBalance_fresh BalanceLeaf.new h) as [Hold Hnew].
      split; [done|]. split; [|done]. cbn in Hnew |- *. by rewrite Hnew. }
    split.
    { intros k l0 Hl0. cbn. rewrite lookup_insert_ne; [done|].
      intros Hsame. subst k. congruence. }
    split.
    { eapply leaves_kept_trans;
        [apply (leaves_kept_allocBalance BalanceLeaf.new)|].
      apply leaves_kept_writeAccount. }
    intros r Hr. by rewrite writeAccount_lookup_ne.
Qed.

(** C5 (amended): on an account of the store, [getStorage(storageID)]
    always returns a leaf that is afterwards stored at the address
    [storageID % 2 ** BINARY_TREE_DEPTH_STORAGE], the remainder of
    JavaScript; for a storageID that is not negative this address is
    [storageID mod 2^BINARY_TREE_DEPTH_STORAGE].  The leaf returned is the one
    already stored at the address, whatever [storageID] that leaf records and
    with the store left as it was, or else a newly allocated zero leaf
    ([storageID = 0], [data = 0]) entered at the address. *)
Theorem getStorage_get_or_create this storageID h a :
  accountObjs h !! this = Some a →
  ∃ l h' a',
    getStorage this storageID h = Some (l, h') ∧
    address storageID =
      Z.rem storageID (2 ^ Z.of_nat BINARY_TREE_DEPTH_STORAGE) ∧
    (0 ≤ storageID →
     address storageID =
       storageID `mod` 2 ^ Z.of_nat BINARY_TREE_DEPTH_STORAGE) ∧
    accountObjs h' !! this = Some a' ∧
    storage a' !! address storageID = Some l ∧
    (∀ l0, storage a !! address storageID = Some l0 → l = l0 ∧ h' = h) ∧
    (storage a !! address storageID = None →
       storageObjs h !! l = None ∧
       storageObjs h' !! l = Some StorageLeaf.new ∧
       StorageLeaf.storageID <$> storageObjs h' !! l = Some 0 ∧
       StorageLeaf.data <$> storageObjs h' !! l = Some 0 ∧
       a' = set_storage (<[address storageID := l]> (storage a)) a) ∧
    (∀ k l0, storage a !! k = Some l0 → storage a' !! k = Some l0) ∧
    leaves_kept h h' ∧ others_kept this h h'.
Proof.
  intros Hthis. destruct (storage a !! address storageID) as [l0|] eqn:Hk.
  - exists l0, h, a. split; [by eapply getStorage_hit|].
    split; [done|]. split; [apply address_nonneg|].
    split; [done|]. split; [done|].
    split; [by intros l1 [= ->]|]. split; [done|]. by repeat split.
  - eexists _, _, _. split; [by eapply getStorage_miss|].
    split; [done|]. split; [apply address_nonneg|].
    split; [by eapply writeAccount_lookup_eq|].
    split; [cbn; apply lookup_insert_eq|].
    split; [done|].
    split.
    { intros _. destruct (allocStorage_fresh StorageLeaf.new h) as [Hold Hnew].
      split; [done|]. cbn in Hnew |- *. by rewrite Hnew. }
    split.
    { intros k l0 Hl0. cbn. rewrite lookup_insert_ne; [done|].
      intros Hsame. subst k. congruence. }
    split.
    { eapply leaves_kept_trans;
        [apply (leaves_kept_allocStorage StorageLeaf.new)|].
      apply leaves_kept_writeAccount. }
    intros r Hr. by rewrite writeAccount_lookup_ne.
Qed.

(** C6 (amended): for a storageID that is not negative and an integer [k]
    such that [storageID + k * 2^BINARY_TREE_DEPTH_STORAGE] is not negative
    either, both have the same storage address, and [getStorage] of the
    second after [getStorage] of the first returns the same leaf and leaves
    the store as it is. *)
Theorem address_cyclic_nonneg this storageID k h a :
  0 ≤ storageID →
  0 ≤ storageID + k * 2 ^ Z.of_nat BINARY_TREE_DEPTH_STORAGE →
  accountObjs h !! this = Some a →
  address storageID =
    address (storageID + k * 2 ^ Z.of_nat BINARY_TREE_DEPTH_STORAGE) ∧
  ∃ l h1,
    getStorage this storageID h = Some (l, h1) ∧
    getStorage this
      (storageID + k * 2 ^ Z.of_nat BINARY_TREE_DEPTH_STORAGE) h1 =
      Some (l, h1).
Proof.
  intros Hs Hsk Hthis.
  assert (Haddr : address storageID =
    address (storageID + k * 2 ^ Z.of_nat BINARY_TREE_DEPTH_STORAGE)).
  { rewrite !address_nonneg; [|done..]. by rewrite Z_mod_plus_full. }
  split; [done|].
  destruct (storage a !! address storageID) as [l0|] eqn:Hk.
  - exists l0, h. split; [by eapply getStorage_hit|].
    eapply getStorage_hit; [done|]. by rewrite <- Haddr.
  - eexists _, _. split; [by eapply getStorage_miss|].
    eapply getStorage_hit; [by eapply writeAccount_lookup_eq|].
    rewrite <- Haddr. cbn. apply lookup_insert_eq.
Qed.
End AccountLeafProps.

(** ** Properties of [ExchangeState] *)

Section ExchangeStateProps.
Context `{Constants} {any : Type}.
Import ExchangeState.
Implicit Types (c : config (any := any)) (accountID : Z) (fuel : nat).

Lemma extended_refl c : extended c c.
Proof.
  unfold extended. split_and!; try done.
  - intros i l Hi Hl. apply lookup_lt_Some in Hl. lia.
  - intros l a Hnone Hsome. congruence.
  - by destruct c as [h []].
Qed.

Lemma extended_trans c1 c2 c3 :
  extended c1 c2 → extended c2 c3 → extended c1 c3.
Proof.
  intros (Ha & Ho & Hn & Hq & Hb & Hs & Hf)
         (Ha' & Ho' & Hn' & Hq' & Hb' & Hs' & Hf').
  unfold extended. split_and!.
  - by etrans.
  - by etrans.
  - intros i l Hi Hl.
    destruct (decide (i < length (accounts c2.2))%nat) as [Hlt|Hge].
    + destruct (lookup_lt_is_Some_2 (accounts c2.2) i Hlt) as [l' Hl'].
      assert (l' = l) as ->.
      { pose proof (prefix_lookup_Some _ _ _ _ Hl' Ha'). congruence. }
      destruct (Hn i l Hi Hl') as [Hold Hnew]. split; [done|].
      by eapply prefix_lookup_Some.
    + destruct (Hn' i l ltac:(lia) Hl) as [Hold Hnew]. split; [|done].
      apply lookup_ge_None. apply lookup_ge_None in Hold.
      apply prefix_length in Ho. lia.
  - intros l a Hnone Hsome.
    destruct (accountObjs c2.1 !! l) as [a'|] eqn:Hmid.
    + pose proof (prefix_lookup_Some _ _ _ _ Hmid Ho') as Hsame.
      assert (a' = a) as -> by congruence. by eapply Hq.
    + by eapply Hq'.
  - congruence.
  - congruence.
  - rewrite Hf', Hf. by destruct c1 as [h []].
Qed.

Lemma accounts_length_push_new c :
  accounts_length (push_new c) = accounts_length c + 1.
Proof. unfold accounts_length, push_new. cbn. rewrite length_app. cbn. lia. Qed.

Lemma extended_push_new c : extended c (push_new c).
Proof.
  unfold extended, push_new. cbn. split_and!; try done.
  - by apply prefix_app_r.
  - by apply prefix_app_r.
  - intros i l Hi Hl.
    assert (i = length (accounts c.2)) as ->.
    { apply lookup_lt_Some in Hl. rewrite length_app in Hl. cbn in Hl. lia. }
    rewrite lookup_app_r in Hl; [|done]. rewrite Nat.sub_diag in Hl.
    injection Hl as <-. split; [by apply lookup_ge_None|].
    rewrite lookup_app_r; [|done]. by rewrite Nat.sub_diag.
  - intros l a Hnone Hsome. apply lookup_ge_None in Hnone.
    rewrite lookup_app_r in Hsome; [|done].
    apply list_lookup_singleton_Some in Hsome as [_ <-]. by eexists.
Qed.

(** The loop of [getAccount] ends within [getAccount_fuel] iterations, and
    any larger bound gives the same configuration. *)
Lemma getAccount_loop_extended fuel accountID c :
  (getAccount_fuel accountID c ≤ fuel)%nat →
  ∃ c', getAccount_loop fuel accountID c = Some c' ∧
        getAccount_loop (getAccount_fuel accountID c) accountID c = Some c' ∧
        extended c c' ∧
        accounts_length c' = Z.max (accounts_length c) (accountID + 1).
Proof.
  revert c. induction fuel as [|fuel IH]; intros c Hfuel.
  - assert (Hz : getAccount_fuel accountID c = 0%nat) by lia. rewrite Hz.
    unfold getAccount_fuel in Hz. cbn.
    rewrite bool_decide_eq_false_2; [|lia].
    exists c. split_and!; [done|done|apply extended_refl|lia].
  - destruct (decide (accountID >= accounts_length c)) as [Hge|Hlt].
    + assert (Hstep : getAccount_fuel accountID c =
                      S (getAccount_fuel accountID (push_new c))).
      { unfold getAccount_fuel. rewrite accounts_length_push_new. lia. }
      destruct (IH (push_new c)) as (c' & Hrun & Hmin & Hext & Hlen);
        [lia|].
      exists c'. rewrite Hstep. cbn. rewrite bool_decide_eq_true_2; [|done].
      split_and!; [done|done| |].
      * eapply extended_trans; [apply extended_push_new|done].
      * rewrite Hlen, accounts_length_push_new. lia.
    + assert (Hz : getAccount_fuel accountID c = 0%nat).
      { unfold getAccount_fuel. lia. }
      rewrite Hz. cbn. rewrite bool_decide_eq_false_2; [|done].
      exists c. split_and!; [done|done|apply extended_refl|lia].
Qed.

(** [getAccount] always returns, in a configuration that extends the one it
    started from and whose array has just the length that is needed. *)
Lemma getAccount_run accountID c :
  ∃ c', getAccount accountID c = Some (accounts_at accountID c', c') ∧
        extended c c' ∧
        accounts_length c' = Z.max (accounts_length c) (accountID + 1).
Proof.
  destruct (getAccount_loop_extended (getAccount_fuel accountID c) accountID c)
    as (c' & Hrun & _ & Hext & Hlen); [done|].
  exists c'. unfold getAccount. rewrite Hrun. by cbn.
Qed.

(** When the array is long enough, [getAccount] changes nothing. *)
Lemma getAccount_noop accountID c :
  accountID < accounts_length c →
  getAccount accountID c = Some (accounts_at accountID c, c).
Proof.
  intros Hlt. unfold getAccount.
  replace (getAccount_fuel accountID c) with 0%nat
    by (unfold getAccount_fuel; lia).
  cbn. by rewrite bool_decide_eq_false_2; [|lia].
Qed.

Lemma accounts_at_is_Some accountID c :
  0 ≤ accountID → accountID < accounts_length c →
  ∃ l, accounts_at accountID c = Some l ∧
       accounts c.2 !! Z.to_nat accountID = Some l.
Proof.
  intros Hpos Hlt. unfold accounts_at, accounts_length in *.
  rewrite bool_decide_eq_true_2; [|done].
  destruct (lookup_lt_is_Some_2 (accounts c.2) (Z.to_nat accountID))
    as [l Hl]; [lia|].
  by exists l.
Qed.

(** C1: for an accountId that is not negative, [getAccount(accountId)]
    returns the account stored at index [accountId] of an array that now has
    at least [accountId + 1] entries, and a second call returns the same
    account and leaves the whole configuration, so also the length of the
    array, as the first call left it. *)
Theorem getAccount_idempotent accountID c :
  0 ≤ accountID →
  ∃ l c',
    getAccount accountID c = Some (Some l, c') ∧
    accountID + 1 ≤ accounts_length c' ∧
    accounts c'.2 !! Z.to_nat accountID = Some l ∧
    getAccount accountID c' = Some (Some l, c').
Proof.
  intros Hpos.
  destruct (getAccount_run accountID c) as (c' & Hget & _ & Hlen).
  destruct (accounts_at_is_Some accountID c') as (l & Hat & Hl);
    [done|lia|].
  exists l, c'. rewrite Hget, Hat. split_and!; [done|lia|done|].
  rewrite getAccount_noop; [|lia]. by rewrite Hat.
Qed.

(** C7: [getAccount(accountID)] always returns, and brings the array to the
    length [max(accounts.length, accountID + 1)].  The entries that were in
    the array keep their positions and the account objects that existed are
    unchanged.  Every appended entry, at index [i], is an object that did
    not exist before and has the field values of [new AccountLeaf(i)]:
    [accountId = i], the zero address as [exchange] and [owner], keys "0",
    flags and nonce 0, no balances and no storage.  The leaves of the store
    and the other fields of the state ([exchange], the two owner maps,
    [deposits], [onchainWithdrawals], [processedRequests]) are unchanged. *)
Theorem getAccount_frame accountID c :
  ∃ r c',
    getAccount accountID c = Some (r, c') ∧
    accounts_length c' = Z.max (accounts_length c) (accountID + 1) ∧
    (∀ (i : nat) (l : ref),
       accounts c.2 !! i = Some l → accounts c'.2 !! i = Some l) ∧
    (∀ (l : ref) a,
       accountObjs c.1 !! l = Some a → accountObjs c'.1 !! l = Some a) ∧
    (∀ (i : nat) (l : ref),
       (length (accounts c.2) ≤ i)%nat → accounts c'.2 !! i = Some l →
       accountObjs c.1 !! l = None ∧
       ∃ a, accountObjs c'.1 !! l = Some a ∧
            a = AccountLeafOps.fresh (Z.of_nat i) ∧
            AccountLeaf.accountId a = Z.of_nat i ∧
            AccountLeaf.exchange a = zeroAddress ∧
            AccountLeaf.owner a = zeroAddress ∧
            AccountLeaf.publicKeyX a = "0" ∧
            AccountLeaf.publicKeyY a = "0" ∧
            AccountLeaf.appKeyPublicKeyX a = "0" ∧
            AccountLeaf.appKeyPublicKeyY a = "0" ∧
            AccountLeaf.disableAppKeySpotTrade a = 0 ∧
            AccountLeaf.disableAppKeyWithdraw a = 0 ∧
            AccountLeaf.disableAppKeyTransferToOther a = 0 ∧
            AccountLeaf.nonce a = 0 ∧
            AccountLeaf.balances a = ∅ ∧
            AccountLeaf.storage a = ∅) ∧
    balanceObjs c'.1 = balanceObjs c.1 ∧
    storageObjs c'.1 = storageObjs c.1 ∧
    exchange c'.2 = exchange c.2 ∧
    accountIdToOwner c'.2 = accountIdToOwner c.2 ∧
    ownerToAccountId c'.2 = ownerToAccountId c.2 ∧
    deposits c'.2 = deposits c.2 ∧
    onchainWithdrawals c'.2 = onchainWithdrawals c.2 ∧
    processedRequests c'.2 = processedRequests c.2.
Proof.
  destruct (getAccount_run accountID c)
    as (c' & Hget & (Ha & Ho & Hn & _ & Hb & Hs & Hf) & Hlen).
  exists (accounts_at accountID c'), c'.
  split_and!; try done; try (by rewrite Hf).
  - intros i l Hl. by eapply prefix_lookup_Some.
  - intros l a Hl. by eapply prefix_lookup_Some.
  - intros i l Hi Hl. destruct (Hn i l Hi Hl) as [Hold Hnew].
    split; [done|]. eexists. split; [exact Hnew|]. by repeat split.
Qed.

(** The constructor is the assignment of the fields followed by
    [getAccount(0)]. *)
Lemma new_run exchange accounts h :
  ∃ c, new exchange accounts h = Some c ∧
       extended (h, mk exchange (default [] accounts) ∅ ∅ [] [] []) c ∧
       accounts_length c =
         Z.max (Z.of_nat (length (default [] accounts))) 1.
Proof.
  destruct (getAccount_run 0 (h, mk exchange (default [] accounts) ∅ ∅ [] [] []))
    as (c & Hget & Hext & Hlen).
  exists c. unfold new. rewrite Hget. by cbn.
Qed.

(** C3: the constructor always returns a state whose array has at least one
    entry, so that [accounts[0]] is defined; with the empty array, given or
    by default, the array has exactly one entry, a newly constructed account
    with [accountId = 0]. *)
Theorem new_has_fee_pool exchange h :
  (∀ accounts,
     ∃ c, new exchange accounts h = Some c ∧
          1 ≤ accounts_length c ∧
          is_Some (accounts_at 0 c)) ∧
  (∃ c, new exchange None h = Some c ∧
        new exchange (Some []) h = Some c ∧
        accounts_length c = 1 ∧
        account_at 0 c = Some (AccountLeafOps.fresh 0)).
Proof.
  split.
  - intros accs. destruct (new_run exchange accs h) as (c & Hnew & _ & Hlen).
    exists c. split_and!; [done|lia|].
    destruct (accounts_at_is_Some 0 c) as (l & Hat & _); [done|lia|].
    by exists l.
  - destruct (new_run exchange None h)
      as (c & Hnew & (_ & _ & Hn & _) & Hlen).
    exists c. cbn in Hlen. split_and!; [done|done|lia|].
    destruct (accounts_at_is_Some 0 c) as (l & Hat & Hl); [done|lia|].
    unfold account_at. rewrite Hat. cbn.
    destruct (Hn 0%nat l) as [_ Hobj]; [cbn; lia|done|done].
Qed.

(** C10: with an array that is not empty the constructor stores that array
    as it is given: the store is untouched, [accounts] is the given array,
    and the other fields are the initial empty maps and queues. *)
Theorem new_keeps_accounts exchange (a : list ref) h :
  a ≠ [] →
  new (any := any) exchange (Some a) h =
    Some (h, mk exchange a ∅ ∅ [] [] []).
Proof.
  intros Hne. unfold new. cbn. rewrite getAccount_noop; [done|].
  unfold accounts_length. cbn. destruct a; [done|]. cbn. lia.
Qed.

Lemma reachable_maps_empty c :
  reachable c → accountIdToOwner c.2 = ∅ ∧ ownerToAccountId c.2 = ∅.
Proof.
  induction 1 as [exchange accs h c Hnew|accountID c r _ [IH1 IH2] Hget].
  - destruct (new_run exchange accs h) as (c' & Hnew' & Hext & _).
    assert (c' = c) as -> by congruence.
    destruct Hext as (_ & _ & _ & _ & _ & _ & Hf). by rewrite Hf.
  - destruct (getAccount_run accountID c) as (c' & Hget' & Hext & _).
    assert (r.2 = c') as -> by (rewrite Hget' in Hget; by injection Hget as <-).
    destruct Hext as (_ & _ & _ & _ & _ & _ & Hf). rewrite Hf. by cbn.
Qed.

(** An extension registers no account: a registered account of [c'] was a
    registered account of [c] already. *)
Lemma extended_registered c c' id :
  extended c c' → registered id c' → registered id c.
Proof.
  intros (Ha & Ho & Hn & Hq & _) (a & Hat & Hown).
  exists a. split; [|done]. unfold account_at, accounts_at in *.
  destruct (bool_decide (0 ≤ id)); [|done]. cbn in *.
  destruct (accounts c'.2 !! Z.to_nat id) as [l|] eqn:Hl; [|done].
  cbn in Hat.
  assert (Hfresh : ∀ i, a ≠ AccountLeafOps.fresh i).
  { intros i ->. by apply Hown. }
  destruct (accountObjs c.1 !! l) as [a0|] eqn:Hobj.
  - pose proof (prefix_lookup_Some _ _ _ _ Hobj Ho) as Hsame.
    assert (a0 = a) as -> by congruence.
    destruct (decide (Z.to_nat id < length (accounts c.2))%nat) as [Hlt|Hge].
    + destruct (lookup_lt_is_Some_2 (accounts c.2) _ Hlt) as [l' Hl'].
      pose proof (prefix_lookup_Some _ _ _ _ Hl' Ha) as Hsame'.
      assert (l' = l) as -> by congruence. rewrite Hl'. by cbn.
    + destruct (Hn (Z.to_nat id) l) as [_ Hnew]; [lia|done|].
      exfalso. apply (Hfresh (Z.of_nat (Z.to_nat id))). congruence.
  - destruct (Hq l a Hobj Hat) as [i ->]. by destruct (Hfresh i).
Qed.

(** C8 (amended): in every state reached from the constructor by calls of
    [getAccount] the two owner maps are empty, so they are inverse to each
    other and [ownerToAccountId[accountIdToOwner[id]] == id] holds for
    every [id] that [accountIdToOwner] maps.  [getAccount] does not touch
    the two maps and registers no account: an account that is registered
    after the call was registered before it. *)
Theorem owner_maps_reachable c :
  reachable c →
  accountIdToOwner c.2 = ∅ ∧
  ownerToAccountId c.2 = ∅ ∧
  owner_maps_inverse c.2 ∧
  (∀ id o, accountIdToOwner c.2 !! id = Some o →
           owner_round_trip id c.2 = Some id) ∧
  (∀ accountID,
     ∃ r c', getAccount accountID c = Some (r, c') ∧
             accountIdToOwner c'.2 = accountIdToOwner c.2 ∧
             ownerToAccountId c'.2 = ownerToAccountId c.2 ∧
             ∀ id, registered id c' → registered id c).
Proof.
  intros Hreach. destruct (reachable_maps_empty c Hreach) as [Ha2o Ho2a].
  split_and!; [done|done| | |].
  - intros id o. by rewrite Ha2o, Ho2a, !lookup_empty.
  - intros id o. by rewrite Ha2o, lookup_empty.
  - intros accountID.
    destruct (getAccount_run accountID c) as (c' & Hget & Hext & _).
    exists (accounts_at accountID c'), c'. split; [done|].
    pose proof Hext as (_ & _ & _ & _ & _ & _ & Hf).
    split_and!; [by rewrite Hf|by rewrite Hf|].
    intros id. by apply extended_registered.
Qed.

Lemma extended_accountIds_kept c c' :
  extended c c' → accountIds_kept c.1 c'.1.
Proof.
  intros (_ & Ho & _) l a Hl. exists a. split; [|done].
  by eapply prefix_lookup_Some.
Qed.

(** C2 (amended): [init] sets the [accountId] of the account it is called
    on to 0, whatever id the account was constructed with, and its
    [exchange] to the zero address, and leaves the other accounts as they
    are; [getBalance], [getStorage], [getAccount]
    and the constructor of [ExchangeState] keep the [accountId] of every
    account of the store. *)
Theorem accountId_reset_only_by_init (this : ref) h a :
  accountObjs h !! this = Some a →
  (∀ owner publicKeyX publicKeyY appKeyPublicKeyX appKeyPublicKeyY nonce
     balances storage,
     ∃ h' a',
       AccountLeafOps.init this owner publicKeyX publicKeyY appKeyPublicKeyX
         appKeyPublicKeyY nonce balances storage h = Some h' ∧
       accountObjs h' !! this = Some a' ∧
       AccountLeaf.accountId a' = 0 ∧
       AccountLeaf.exchange a' = zeroAddress ∧
       others_kept this h h') ∧
  (∀ tokenID,
     ∃ l h', AccountLeafOps.getBalance this tokenID h = Some (l, h') ∧
             accountIds_kept h h') ∧
  (∀ storageID,
     ∃ l h', AccountLeafOps.getStorage this storageID h = Some (l, h') ∧
             accountIds_kept h h') ∧
  (∀ accountID (s : t any),
     ∃ r c', getAccount accountID (h, s) = Some (r, c') ∧
             accountIds_kept h c'.1) ∧
  (∀ exchange accounts,
     ∃ c', new (any := any) exchange accounts h = Some c' ∧
           accountIds_kept h c'.1).
Proof.
  intros Hthis. split_and!.
  - intros. eexists _, _. unfold AccountLeafOps.init. rewrite Hthis. cbn.
    split_and!; [done|by eapply writeAccount_lookup_eq|done|done|].
    intros r Hr. by rewrite writeAccount_lookup_ne.
  - intros tokenID. by eapply getBalance_accountIds_kept.
  - intros storageID. by eapply getStorage_accountIds_kept.
  - intros accountID s.
    destruct (getAccount_run accountID (h, s)) as (c' & Hget & Hext & _).
    eexists _, c'. split; [done|]. by apply (extended_accountIds_kept (h, s)).
  - intros exchange accs.
    destruct (new_run exchange accs h) as (c' & Hnew & Hext & _).
    exists c'. split; [done|].
    by apply (extended_accountIds_kept _ _ Hext).
Qed.
End ExchangeStateProps.

(** ** The scenarios of the specification, evaluated *)

Section Scenarios.
Import AccountLeafOps.
Local Existing Instance loopring_constants.

(** An empty exchange state has one account; [getAccount(5)] brings it to
    six, the accounts 1 to 4 being newly constructed ones. *)
Example scenario_getAccount_5 :
  ∃ c0 c1,
    ExchangeState.new (any := unit) "0xEXC" None emptyHeap = Some c0 ∧
    ExchangeState.accounts_length c0 = 1 ∧
    ExchangeState.getAccount 5 c0 = Some (Some 5%nat, c1) ∧
    ExchangeState.accounts_length c1 = 6 ∧
    Forall (λ i, ExchangeState.account_at i c1 = Some (fresh i)) [1; 2; 3; 4].
Proof.
  eexists _, _. split; [vm_compute; reflexivity|].
  split; [reflexivity|]. split; [vm_compute; reflexivity|].
  split; [reflexivity|]. repeat constructor.
Qed.

(** With depth 14, the storageIDs 17 and 17 + 16384 have address 17 and
    [getStorage] returns the same leaf for both. *)
Example scenario_getStorage_17 :
  address 17 = 17 ∧ address (17 + 16384) = 17 ∧
  (r1 ← getStorage 0%nat 17 heap_account5;
   r2 ← getStorage 0%nat (17 + 16384) r1.2;
   Some (r1.1, r2.1, length (storageObjs r2.2))) = Some (0%nat, 0%nat, 1%nat).
Proof. by vm_compute. Qed.

(** A storageID that is negative has a negative address. *)
Example scenario_address_negative : address (-1) = -1.
Proof. reflexivity. Qed.
End Scenarios.

(** ** Where the code departs from the specification *)

Section Counterexamples.
Import AccountLeafOps.
Local Existing Instance loopring_constants.

(** C2: an account constructed with [accountId = 5] has [accountId = 0]
    after [init]. *)
Lemma init_resets_accountId_counterexample :
  AccountLeaf.accountId <$> accountObjs heap_account5 !! 0%nat = Some 5 ∧
  (h' ← init 0%nat "0x00000000000000000000000000000000000000aa"
          "1" "2" "0" "0" 0 None None heap_account5;
   AccountLeaf.accountId <$> accountObjs h' !! 0%nat) = Some 0 ∧
  (h' ← init 0%nat "0x00000000000000000000000000000000000000aa"
          "1" "2" "0" "0" 0 None None heap_account5;
   AccountLeaf.accountId <$> accountObjs h' !! 0%nat) ≠
    AccountLeaf.accountId <$> accountObjs heap_account5 !! 0%nat.
Proof. by vm_compute. Qed.

(** C6: with depth 14, storageID 17 and [k = -1] the two addresses are 17
    and -16367, and on an account without storage [getStorage] returns two
    different leaves. *)
Lemma address_cyclic_counterexample :
  address 17 = 17 ∧
  address (17 + (-1) * 2 ^ 14) = -16367 ∧
  address 17 ≠ address (17 + (-1) * 2 ^ 14) ∧
  (r1 ← getStorage 0%nat 17 heap_account5;
   r2 ← getStorage 0%nat (17 + (-1) * 2 ^ 14) r1.2;
   Some (r1.1, r2.1)) = Some (0%nat, 1%nat).
Proof. by vm_compute. Qed.

(** C8: the state constructed with an array holding one registered account
    is reachable, its account 0 is registered, and
    [ownerToAccountId[accountIdToOwner[0]]] is undefined, not 0. *)
Lemma owner_round_trip_counterexample :
  ∃ c, config_owned = Some c ∧
       ExchangeState.reachable c ∧
       ExchangeState.registered 0 c ∧
       ExchangeState.owner_round_trip 0 c.2 = None ∧
       ExchangeState.owner_round_trip 0 c.2 ≠ Some 0.
Proof.
  eexists. split; [vm_compute; reflexivity|]. split_and!.
  - eapply (ExchangeState.reachable_new "0xEXC" (Some [0%nat])
              (default emptyHeap heap_owned)).
    vm_compute. reflexivity.
  - eexists. split; [vm_compute; reflexivity|]. by vm_compute.
  - reflexivity.
  - by vm_compute.
Qed.

(** C5: with depth 14 the storageID -1 has the address -1, not
    [(-1) mod 2^14 = 16383]: [getStorage(-1)] on an account without storage
    enters its leaf under the key -1 and leaves the key 16383 unset. *)
Lemma getStorage_address_counterexample :
  address (-1) = -1 ∧
  (-1) `mod` 2 ^ 14 = 16383 ∧
  address (-1) ≠ (-1) `mod` 2 ^ Z.of_nat BINARY_TREE_DEPTH_STORAGE ∧
  (r ← getStorage 0%nat (-1) heap_account5;
   a ← accountObjs r.2 !! 0%nat;
   Some (r.1, AccountLeaf.storage a !! (-1),
         AccountLeaf.storage a !! 16383)) =
    Some (0%nat, Some 0%nat, None).
Proof. by vm_compute. Qed.
End Counterexamples.

(** ** The theorems at concrete inputs *)

Section Witnesses.
Import AccountLeafOps.
Local Existing Instance loopring_constants.

Lemma getAccount_idempotent_witness :
  0 ≤ 5 ∧
  ∃ l c',
    ExchangeState.getAccount 5 (emptyHeap, state_blank) = Some (Some l, c') ∧
    5 + 1 ≤ ExchangeState.accounts_length c' ∧
    ExchangeState.accounts c'.2 !! Z.to_nat 5 = Some l ∧
    ExchangeState.getAccount 5 c' = Some (Some l, c').
Proof.
  split; [lia|].
  apply (getAccount_idempotent 5 (emptyHeap, state_blank)). lia.
Defined.

Lemma getBalance_get_or_create_witness :
  accountObjs heap_account5 !! 0%nat = Some (fresh 5) ∧
  ∃ l h',
    getBalance 0%nat 3 heap_account5 = Some (l, h') ∧
    BalanceLeaf.balance <$> balanceObjs h' !! l = Some 0.
Proof.
  split; [reflexivity|].
  destruct (getBalance_get_or_create 0%nat 3 heap_account5 (fresh 5) eq_refl)
    as (l & h' & a' & Hget & _ & _ & _ & Hnew & _).
  exists l, h'. split; [exact Hget|]. apply Hnew. reflexivity.
Defined.

Lemma getStorage_get_or_create_witness :
  accountObjs heap_account5 !! 0%nat = Some (fresh 5) ∧
  ∃ l h',
    getStorage 0%nat (17 + 16384) heap_account5 = Some (l, h') ∧
    storageObjs h' !! l = Some StorageLeaf.new.
Proof.
  split; [reflexivity|].
  destruct (getStorage_get_or_create 0%nat (17 + 16384) heap_account5
              (fresh 5) eq_refl)
    as (l & h' & a' & Hget & _ & _ & _ & _ & _ & Hnew & _).
  exists l, h'. split; [exact Hget|]. apply Hnew. reflexivity.
Defined.

Lemma address_cyclic_nonneg_witness :
  0 ≤ 17 ∧ 0 ≤ 17 + 1 * 2 ^ Z.of_nat BINARY_TREE_DEPTH_STORAGE ∧
  accountObjs heap_account5 !! 0%nat = Some (fresh 5) ∧
  address 17 = address (17 + 1 * 2 ^ Z.of_nat BINARY_TREE_DEPTH_STORAGE).
Proof.
  split; [lia|]. split; [vm_compute; discriminate|].
  split; [reflexivity|].
  apply (address_cyclic_nonneg 0%nat 17 1 heap_account5 (fresh 5));
    [lia|vm_compute; discriminate|reflexivity].
Defined.

Lemma new_keeps_accounts_witness :
  [0%nat] ≠ [] ∧
  ExchangeState.new (any := unit) "0xEXC" (Some [0%nat]) heap_account5 =
    Some (heap_account5, ExchangeState.mk "0xEXC" [0%nat] ∅ ∅ [] [] []).
Proof.
  split; [discriminate|].
  apply (new_keeps_accounts "0xEXC" [0%nat] heap_account5). discriminate.
Defined.

Lemma owner_maps_reachable_witness :
  ExchangeState.reachable config_fresh ∧
  ExchangeState.owner_maps_inverse config_fresh.2.
Proof.
  assert (Hr : ExchangeState.reachable config_fresh).
  { apply (ExchangeState.reachable_new "0xEXC" None emptyHeap).
    reflexivity. }
  split; [exact Hr|].
  apply (owner_maps_reachable config_fresh Hr).
Defined.

Lemma accountId_reset_only_by_init_witness :
  accountObjs heap_account5 !! 0%nat = Some (fresh 5) ∧
  ∃ h' a',
    init 0%nat "0x00000000000000000000000000000000000000aa" "1" "2" "0" "0"
      0 None None heap_account5 = Some h' ∧
    accountObjs h' !! 0%nat = Some a' ∧
    AccountLeaf.accountId a' = 0 ∧
    AccountLeaf.exchange a' = zeroAddress.
Proof.
  split; [reflexivity|].
  destruct (accountId_reset_only_by_init (any := unit) 0%nat heap_account5
              (fresh 5) eq_refl) as (Hinit & _).
  destruct (Hinit "0x00000000000000000000000000000000000000aa" "1" "2" "0"
              "0" 0 None None) as (h' & a' & Hrun & Hobj & Hid & Hex & _).
  by exists h', a'.
Defined.
End Witnesses.

(** ** Storage addresses *)

Section AddressProps.
Context `{Constants}.
Import AccountLeaf AccountLeafOps.

Lemma pow_depth_pos : 0 < 2 ^ Z.of_nat BINARY_TREE_DEPTH_STORAGE.
Proof. apply Z.pow_pos_nonneg; lia. Qed.

(** JavaScript's remainder in terms of the remainder of magnitudes. *)
Lemma address_sgn_mod storageID :
  address storageID =
    Z.sgn storageID *
    (Z.abs storageID `mod` 2 ^ Z.of_nat BINARY_TREE_DEPTH_STORAGE).
Proof.
  pose proof pow_depth_pos as Hpos. unfold address.
  rewrite Z.rem_mod by lia. by rewrite (Z.abs_eq (2 ^ _)) by lia.
Qed.

Lemma address_sign storageID : 0 ≤ storageID * address storageID.
Proof.
  pose proof (Z.mod_pos_bound (Z.abs storageID) _ pow_depth_pos) as Hb.
  rewrite address_sgn_mod. nia.
Qed.

(** X1: the address of a storageID lies strictly between [-2^depth] and
    [2^depth] and has the sign of the storageID: it is the remainder of the
    magnitude, negated for a negative storageID.  So a negative storageID is
    stored under a key that is negative or zero. *)
Theorem address_range_sign storageID :
  - 2 ^ Z.of_nat BINARY_TREE_DEPTH_STORAGE < address storageID
    < 2 ^ Z.of_nat BINARY_TREE_DEPTH_STORAGE ∧
  address storageID =
    Z.sgn storageID *
    (Z.abs storageID `mod` 2 ^ Z.of_nat BINARY_TREE_DEPTH_STORAGE) ∧
  0 ≤ storageID * address storageID.
Proof.
  pose proof (Z.mod_pos_bound (Z.abs storageID) _ pow_depth_pos) as Hb.
  pose proof (address_sgn_mod storageID) as Hsgn.
  split_and!; [nia|nia|done|apply address_sign].
Qed.

(** X2: the address of an address is that address, and a storageID is its own
    address exactly when its magnitude is below [2^depth]. *)
Theorem address_fixpoint storageID :
  address (address storageID) = address storageID ∧
  (address storageID = storageID ↔
   Z.abs storageID < 2 ^ Z.of_nat BINARY_TREE_DEPTH_STORAGE).
Proof.
  pose proof pow_depth_pos as Hpos. unfold address. split.
  - apply Z.rem_rem. lia.
  - rewrite Z.rem_small_iff by lia. by rewrite (Z.abs_eq (2 ^ _)) by lia.
Qed.

(** X3: two storageIDs that are not negative have the same address exactly
    when they differ by a multiple of [2^depth]. *)
Theorem address_same_iff_congruent s1 s2 :
  0 ≤ s1 → 0 ≤ s2 →
  (address s1 = address s2 ↔
   ∃ k, s1 - s2 = k * 2 ^ Z.of_nat BINARY_TREE_DEPTH_STORAGE).
Proof.
  intros H1 H2. rewrite !address_nonneg by done. apply Z.cong_iff_ex.
Qed.

(** X4: a storageID below zero and one above zero never share a slot unless
    both are multiples of [2^depth], in which case the slot is the one of
    key 0. *)
Theorem address_mixed_sign s1 s2 :
  s1 < 0 → 0 < s2 → address s1 = address s2 →
  address s1 = 0 ∧ address s2 = 0.
Proof.
  intros H1 H2 Heq.
  pose proof (address_sign s1) as Hs1. pose proof (address_sign s2) as Hs2.
  rewrite Heq in Hs1. nia.
Qed.
End AddressProps.

(** ** How the accessors of an account compose *)

Section AccessorProps.
Context `{Constants}.
Import AccountLeaf AccountLeafOps.
Implicit Types (h : Heap) (this : ref) (a : AccountLeaf.t).

(** After either accessor the receiver holds the returned leaf under the
    key. *)
Lemma getBalance_stored this tokenID h a :
  accountObjs h !! this = Some a →
  ∃ l h' a', getBalance this tokenID h = Some (l, h') ∧
             accountObjs h' !! this = Some a' ∧
             balances a' !! tokenID = Some l ∧
             storage a' = storage a ∧
             storageObjs h' = storageObjs h.
Proof.
  intros Hthis. destruct (balances a !! tokenID) as [l0|] eqn:Hk.
  - exists l0, h, a. split; [by eapply getBalance_hit|done].
  - eexists _, _, _. split; [by eapply getBalance_miss|].
    split; [by eapply writeAccount_lookup_eq|].
    split; [cbn; apply lookup_insert_eq|done].
Qed.

Lemma getStorage_stored this storageID h a :
  accountObjs h !! this = Some a →
  ∃ l h' a', getStorage this storageID h = Some (l, h') ∧
             accountObjs h' !! this = Some a' ∧
             storage a' !! address storageID = Some l ∧
             balances a' = balances a ∧
             balanceObjs h' = balanceObjs h.
Proof.
  intros Hthis. destruct (storage a !! address storageID) as [l0|] eqn:Hk.
  - exists l0, h, a. split; [by eapply getStorage_hit|done].
  - eexists _, _, _. split; [by eapply getStorage_miss|].
    split; [by eapply writeAccount_lookup_eq|].
    split; [cbn; apply lookup_insert_eq|done].
Qed.

Lemma address_address storageID :
  address (address storageID) = address storageID.
Proof. unfold address. apply Z.rem_rem. pose proof pow_depth_pos. lia. Qed.

(** X5: [getBalance] is idempotent: a second call for the same token returns
    the leaf of the first call and changes nothing. *)
Theorem getBalance_idempotent this tokenID h a :
  accountObjs h !! this = Some a →
  ∃ l h', getBalance this tokenID h = Some (l, h') ∧
          getBalance this tokenID h' = Some (l, h').
Proof.
  intros Hthis.
  destruct (getBalance_stored this tokenID h a Hthis)
    as (l & h' & a' & Hget & Hthis' & Hk & _).
  exists l, h'. split; [done|]. by eapply getBalance_hit.
Qed.

(** X6: two storageIDs with the same address, of whatever sign, are served by
    one leaf: [getStorage] of the second after [getStorage] of the first
    returns the same leaf and changes nothing.  In particular [getStorage] is
    idempotent, and a slot can be fetched again by its address. *)
Theorem getStorage_same_address this s1 s2 h a :
  accountObjs h !! this = Some a →
  address s1 = address s2 →
  ∃ l h', getStorage this s1 h = Some (l, h') ∧
          getStorage this s2 h' = Some (l, h') ∧
          getStorage this (address s1) h' = Some (l, h').
Proof.
  intros Hthis Haddr.
  destruct (getStorage_stored this s1 h a Hthis)
    as (l & h' & a' & Hget & Hthis' & Hk & _).
  exists l, h'. split_and!; [done| |].
  - eapply getStorage_hit; [done|]. by rewrite <- Haddr.
  - eapply getStorage_hit; [done|]. by rewrite address_address.
Qed.

(** The invariant [leaf_maps_wf] through one accessor call. *)
Lemma getBalance_wf this tokenID h a :
  accountObjs h !! this = Some a → leaf_maps_wf h a →
  ∃ l h' a', getBalance this tokenID h = Some (l, h') ∧
             accountObjs h' !! this = Some a' ∧
             balances a' !! tokenID = Some l ∧
             (∀ k l0, balances a !! k = Some l0 →
                      balances a' !! k = Some l0) ∧
             leaf_maps_wf h' a'.
Proof.
  intros Hthis (Hbv & Hbi & Hsv & Hsi).
  destruct (balances a !! tokenID) as [l0|] eqn:Hk.
  - exists l0, h, a. split; [by eapply getBalance_hit|done].
  - eexists _, _, _. split; [by eapply getBalance_miss|].
    split; [by eapply writeAccount_lookup_eq|].
    split; [cbn; apply lookup_insert_eq|].
    split.
    { intros k l0 Hl0. cbn. rewrite lookup_insert_ne; [done|].
      intros Hsame. subst k. congruence. }
    assert (Hfresh : ∀ k, balances a !! k ≠ Some (length (balanceObjs h))).
    { intros k Hl. destruct (Hbv k _ Hl) as [b Hb].
      apply lookup_lt_Some in Hb. lia. }
    split_and!; cbn.
    + intros k l. rewrite lookup_insert. case_decide as Hkk.
      * intros [= <-]. rewrite lookup_app_r by done.
        rewrite Nat.sub_diag. by eexists.
      * intros Hl. destruct (Hbv k l Hl) as [b Hb]. exists b.
        by apply lookup_app_l_Some.
    + intros k1 k2 l. rewrite !lookup_insert.
      repeat case_decide; subst; try done.
      * intros [= <-] Hl. by destruct (Hfresh k2).
      * intros Hl [= <-]. by destruct (Hfresh k1).
      * apply Hbi.
    + done.
    + done.
Qed.

Lemma getStorage_wf this storageID h a :
  accountObjs h !! this = Some a → leaf_maps_wf h a →
  ∃ l h' a', getStorage this storageID h = Some (l, h') ∧
             accountObjs h' !! this = Some a' ∧
             storage a' !! address storageID = Some l ∧
             (∀ k l0, storage a !! k = Some l0 →
                      storage a' !! k = Some l0) ∧
             leaf_maps_wf h' a'.
Proof.
  intros Hthis (Hbv & Hbi & Hsv & Hsi).
  destruct (storage a !! address storageID) as [l0|] eqn:Hk.
  - exists l0, h, a. split; [by eapply getStorage_hit|done].
  - eexists _, _, _. split; [by eapply getStorage_miss|].
    split; [by eapply writeAccount_lookup_eq|].
    split; [cbn; apply lookup_insert_eq|].
    split.
    { intros k l0 Hl0. cbn. rewrite lookup_insert_ne; [done|].
      intros Hsame. subst k. congruence. }
    assert (Hfresh : ∀ k, storage a !! k ≠ Some (length (storageObjs h))).
    { intros k Hl. destruct (Hsv k _ Hl) as [b Hb].
      apply lookup_lt_Some in Hb. lia. }
    split_and!; cbn.
    + done.
    + done.
    + intros k l. rewrite lookup_insert. case_decide as Hkk.
      * intros [= <-]. rewrite lookup_app_r by done.
        rewrite Nat.sub_diag. by eexists.
      * intros Hl. destruct (Hsv k l Hl) as [b Hb]. exists b.
        by apply lookup_app_l_Some.
    + intros k1 k2 l. rewrite !lookup_insert.
      repeat case_decide; subst; try done.
      * intros [= <-] Hl. by destruct (Hfresh k2).
      * intros Hl [= <-]. by destruct (Hfresh k1).
      * apply Hsi.
Qed.

Lemma fresh_wf h accountId : leaf_maps_wf h (fresh accountId).
Proof. by split_and!; cbn; intros *; rewrite ?lookup_empty. Qed.

(** X7: an account whose dictionaries point to leaves of the store, no leaf
    under two keys, is still such an account after [getBalance] and after
    [getStorage]; a newly constructed account is one. *)
Theorem accessors_keep_leaf_maps_wf this h a :
  accountObjs h !! this = Some a → leaf_maps_wf h a →
  (∀ tokenID,
     ∃ l h' a', getBalance this tokenID h = Some (l, h') ∧
                accountObjs h' !! this = Some a' ∧ leaf_maps_wf h' a') ∧
  (∀ storageID,
     ∃ l h' a', getStorage this storageID h = Some (l, h') ∧
                accountObjs h' !! this = Some a' ∧ leaf_maps_wf h' a') ∧
  (∀ h0 accountId, leaf_maps_wf h0 (fresh accountId)).
Proof.
  intros Hthis Hwf. split_and!.
  - intros tokenID.
    destruct (getBalance_wf this tokenID h a Hthis Hwf)
      as (l & h' & a' & Hget & Hthis' & _ & _ & Hwf').
    by exists l, h', a'.
  - intros storageID.
    destruct (getStorage_wf this storageID h a Hthis Hwf)
      as (l & h' & a' & Hget & Hthis' & _ & _ & Hwf').
    by exists l, h', a'.
  - intros h0 accountId. apply fresh_wf.
Qed.

(** X8: on such an account two different tokens never get the same leaf, and
    the leaf of the first token is still returned for it after the call for
    the second. *)
Theorem getBalance_distinct_tokens this k1 k2 h a :
  accountObjs h !! this = Some a → leaf_maps_wf h a → k1 ≠ k2 →
  ∃ l1 h1 l2 h2,
    getBalance this k1 h = Some (l1, h1) ∧
    getBalance this k2 h1 = Some (l2, h2) ∧
    l1 ≠ l2 ∧
    getBalance this k1 h2 = Some (l1, h2).
Proof.
  intros Hthis Hwf Hne.
  destruct (getBalance_wf this k1 h a Hthis Hwf)
    as (l1 & h1 & a1 & Hget1 & Hthis1 & Hk1 & _ & Hwf1).
  destruct (getBalance_wf this k2 h1 a1 Hthis1 Hwf1)
    as (l2 & h2 & a2 & Hget2 & Hthis2 & Hk2 & Hkept & (_ & Hinj & _)).
  exists l1, h1, l2, h2. split_and!; [done|done| |].
  - intros ->. apply Hne. eapply Hinj; [by apply Hkept|done].
  - eapply getBalance_hit; [done|by apply Hkept].
Qed.

(** X9: on such an account two storageIDs with different addresses never get
    the same leaf, and the leaf of the first is still returned for it after
    the call for the second. *)
Theorem getStorage_distinct_addresses this s1 s2 h a :
  accountObjs h !! this = Some a → leaf_maps_wf h a →
  address s1 ≠ address s2 →
  ∃ l1 h1 l2 h2,
    getStorage this s1 h = Some (l1, h1) ∧
    getStorage this s2 h1 = Some (l2, h2) ∧
    l1 ≠ l2 ∧
    getStorage this s1 h2 = Some (l1, h2).
Proof.
  intros Hthis Hwf Hne.
  destruct (getStorage_wf this s1 h a Hthis Hwf)
    as (l1 & h1 & a1 & Hget1 & Hthis1 & Hk1 & _ & Hwf1).
  destruct (getStorage_wf this s2 h1 a1 Hthis1 Hwf1)
    as (l2 & h2 & a2 & Hget2 & Hthis2 & Hk2 & Hkept & (_ & _ & _ & Hinj)).
  exists l1, h1, l2, h2. split_and!; [done|done| |].
  - intros ->. apply Hne. eapply Hinj; [by apply Hkept|done].
  - eapply getStorage_hit; [done|by apply Hkept].
Qed.

(** X10: [getBalance] and [getStorage] on one account commute: in either
    order they return the same two leaves and end in the same store. *)
Theorem getBalance_getStorage_commute this tokenID storageID h a :
  accountObjs h !! this = Some a →
  ∃ lb ls h1 h1' h2,
    getBalance this tokenID h = Some (lb, h1) ∧
    getStorage this storageID h1 = Some (ls, h2) ∧
    getStorage this storageID h = Some (ls, h1') ∧
    getBalance this tokenID h1' = Some (lb, h2).
Proof.
  intros Hthis.
  destruct (balances a !! tokenID) as [lb|] eqn:Hb;
    destruct (storage a !! address storageID) as [ls|] eqn:Hs.
  - exists lb, ls, h, h, h.
    split_and!; by (eapply getBalance_hit || eapply getStorage_hit).
  - eexists lb, _, h, _, _.
    split_and!; [by eapply getBalance_hit|by eapply getStorage_miss
                |by eapply getStorage_miss|].
    eapply getBalance_hit; [by eapply writeAccount_lookup_eq|done].
  - eexists _, ls, _, h, _.
    split_and!; [by eapply getBalance_miss| |by eapply getStorage_hit
                |by eapply getBalance_miss].
    eapply getStorage_hit; [by eapply writeAccount_lookup_eq|done].
  - eexists _, _, _, _, _.
    split_and!; [by eapply getBalance_miss| |by eapply getStorage_miss|].
    + erewrite getStorage_miss;
        [reflexivity|by eapply writeAccount_lookup_eq|done].
    + erewrite getBalance_miss;
        [|by eapply writeAccount_lookup_eq|done].
      unfold writeAccount, set_balances, set_storage. cbn.
      by rewrite !list_insert_insert_eq.
Qed.
End AccessorProps.

(** ** [init] and the writes to a balance leaf *)

Section InitProps.
Context `{Constants}.
Import AccountLeaf AccountLeafOps.
Implicit Types (h : Heap) (this : ref) (a : AccountLeaf.t).

Lemma init_run this owner publicKeyX publicKeyY appKeyPublicKeyX
    appKeyPublicKeyY nonce balances storage h a :
  accountObjs h !! this = Some a →
  init this owner publicKeyX publicKeyY appKeyPublicKeyX appKeyPublicKeyY
    nonce balances storage h =
  Some (writeAccount this
          (init_fields owner publicKeyX publicKeyY appKeyPublicKeyX
             appKeyPublicKeyY nonce balances storage a) h).
Proof. intros Hthis. unfold init. by rewrite Hthis. Qed.

Lemma leaf_maps_wf_writeBalance l b h a :
  leaf_maps_wf h a → leaf_maps_wf (writeBalance l b h) a.
Proof.
  intros (Hbv & Hbi & Hsv & Hsi). split_and!; cbn; try done.
  intros k l0 Hl0. destruct (Hbv k l0 Hl0) as [b0 Hb0].
  apply lookup_lt_is_Some. rewrite length_insert.
  by eapply lookup_lt_Some.
Qed.

(** X11: [init] called without the two dictionaries drops every balance and
    storage entry of the account: the leaves stay in the store, but each
    later [getBalance] and [getStorage] on the account first returns a newly
    allocated zero leaf. *)
Theorem init_without_maps_wipes this owner publicKeyX publicKeyY
    appKeyPublicKeyX appKeyPublicKeyY nonce h a :
  accountObjs h !! this = Some a →
  ∃ h',
    init this owner publicKeyX publicKeyY appKeyPublicKeyX appKeyPublicKeyY
      nonce None None h = Some h' ∧
    balanceObjs h' = balanceObjs h ∧
    storageObjs h' = storageObjs h ∧
    (∀ tokenID,
       ∃ l h'', getBalance this tokenID h' = Some (l, h'') ∧
                balanceObjs h !! l = None ∧
                balanceObjs h'' !! l = Some BalanceLeaf.new) ∧
    (∀ storageID,
       ∃ l h'', getStorage this storageID h' = Some (l, h'') ∧
                storageObjs h !! l = None ∧
                storageObjs h'' !! l = Some StorageLeaf.new).
Proof.
  intros Hthis. eexists. split; [by eapply init_run|].
  split; [done|]. split; [done|]. split.
  - intros tokenID. eexists _, _.
    split; [eapply getBalance_miss;
              [by eapply writeAccount_lookup_eq|apply lookup_empty]|].
    cbn. split; [by apply lookup_ge_None|].
    rewrite lookup_app_r by done. by rewrite Nat.sub_diag.
  - intros storageID. eexists _, _.
    split; [eapply getStorage_miss;
              [by eapply writeAccount_lookup_eq|apply lookup_empty]|].
    cbn. split; [by apply lookup_ge_None|].
    rewrite lookup_app_r by done. by rewrite Nat.sub_diag.
Qed.

(** X12: [init] called with two dictionaries installs them: afterwards
    [getBalance] and [getStorage] return the leaves that the dictionaries
    hold, without allocating. *)
Theorem init_with_maps_hydrates this owner publicKeyX publicKeyY
    appKeyPublicKeyX appKeyPublicKeyY nonce (mb ms : gmap Z ref) h a :
  accountObjs h !! this = Some a →
  ∃ h',
    init this owner publicKeyX publicKeyY appKeyPublicKeyX appKeyPublicKeyY
      nonce (Some mb) (Some ms) h = Some h' ∧
    (∀ tokenID l, mb !! tokenID = Some l →
                  getBalance this tokenID h' = Some (l, h')) ∧
    (∀ storageID l, ms !! address storageID = Some l →
                    getStorage this storageID h' = Some (l, h')).
Proof.
  intros Hthis. eexists. split; [by eapply init_run|]. split.
  - intros tokenID l Hl.
    eapply getBalance_hit; [by eapply writeAccount_lookup_eq|done].
  - intros storageID l Hl.
    eapply getStorage_hit; [by eapply writeAccount_lookup_eq|done].
Qed.

(** X13: of two calls of [init] on one account the second decides every
    field it assigns: the store is the one that the second call alone would
    give.  The three [disableAppKey...] flags are assigned by neither and
    keep the values they had. *)
Theorem init_twice this
    o1 x1 y1 ax1 ay1 n1 b1 s1 o2 x2 y2 ax2 ay2 n2 b2 s2 h a :
  accountObjs h !! this = Some a →
  ∃ h1 h2 a2,
    init this o1 x1 y1 ax1 ay1 n1 b1 s1 h = Some h1 ∧
    init this o2 x2 y2 ax2 ay2 n2 b2 s2 h1 = Some h2 ∧
    init this o2 x2 y2 ax2 ay2 n2 b2 s2 h = Some h2 ∧
    accountObjs h2 !! this = Some a2 ∧
    disableAppKeySpotTrade a2 = disableAppKeySpotTrade a ∧
    disableAppKeyWithdraw a2 = disableAppKeyWithdraw a ∧
    disableAppKeyTransferToOther a2 = disableAppKeyTransferToOther a.
Proof.
  intros Hthis. eexists _, _, _.
  split; [by eapply init_run|].
  split; [eapply init_run; by eapply writeAccount_lookup_eq|].
  split.
  { erewrite init_run by done. unfold writeAccount. cbn.
    by rewrite list_insert_insert_eq. }
  split; [eapply writeAccount_lookup_eq; by eapply writeAccount_lookup_eq|].
  by split_and!.
Qed.

(** X14: a balance written with [BalanceLeaf.init] to the leaf that
    [getBalance] returned is the balance found by the next [getBalance] of
    that token, which returns the same leaf; no other leaf is changed, and
    every other token of the account has another leaf. *)
Theorem getBalance_init_round_trip this tokenID v h a :
  accountObjs h !! this = Some a → leaf_maps_wf h a →
  ∃ l h1 h2,
    getBalance this tokenID h = Some (l, h1) ∧
    BalanceLeafOps.init l v h1 = Some h2 ∧
    getBalance this tokenID h2 = Some (l, h2) ∧
    BalanceLeaf.balance <$> balanceObjs h2 !! l = Some v ∧
    (∀ r, r ≠ l → balanceObjs h2 !! r = balanceObjs h1 !! r) ∧
    (∀ k, k ≠ tokenID →
          ∃ l' h3, getBalance this k h2 = Some (l', h3) ∧ l' ≠ l).
Proof.
  intros Hthis Hwf.
  destruct (getBalance_wf this tokenID h a Hthis Hwf)
    as (l & h1 & a1 & Hget & Hthis1 & Hk & _ & Hwf1).
  destruct Hwf1 as (Hbv & Hwf1').
  destruct (Hbv tokenID l Hk) as [b Hb].
  exists l, h1, (writeBalance l (BalanceLeaf.init v b) h1).
  split; [done|].
  split; [unfold BalanceLeafOps.init; by rewrite Hb|].
  split; [by eapply getBalance_hit|].
  split.
  { cbn. rewrite list_lookup_insert_eq; [done|by eapply lookup_lt_Some]. }
  split.
  { intros r Hr. cbn. by rewrite list_lookup_insert_ne. }
  intros k Hk'.
  destruct (getBalance_wf this k (writeBalance l (BalanceLeaf.init v b) h1) a1)
    as (l' & h3 & a3 & Hget3 & _ & Hk3 & Hkept & (_ & Hinj & _));
    [done|by apply leaf_maps_wf_writeBalance|].
  exists l', h3. split; [done|]. intros ->. apply Hk'.
  eapply Hinj; [done|by apply Hkept].
Qed.
End InitProps.

(** ** More on [getAccount] and on the states the constructor builds *)

Section GetAccountProps.
Context `{Constants} {any : Type}.
Import ExchangeState.
Implicit Types (c : config (any := any)) (accountID : Z) (fuel : nat).

(** The loop of [getAccount] is [push_new] repeated [getAccount_fuel]
    times. *)
Lemma getAccount_loop_iter fuel accountID c :
  (getAccount_fuel accountID c ≤ fuel)%nat →
  getAccount_loop fuel accountID c =
    Some (Nat.iter (getAccount_fuel accountID c) push_new c).
Proof.
  revert c. induction fuel as [|fuel IH]; intros c Hfuel.
  - replace (getAccount_fuel accountID c) with 0%nat by lia. cbn.
    rewrite bool_decide_eq_false_2; [done|].
    unfold getAccount_fuel in Hfuel. lia.
  - destruct (decide (accountID >= accounts_length c)) as [Hge|Hlt].
    + assert (Hstep : getAccount_fuel accountID c =
                      S (getAccount_fuel accountID (push_new c))).
      { unfold getAccount_fuel. rewrite accounts_length_push_new. lia. }
      cbn [getAccount_loop]. rewrite bool_decide_eq_true_2 by done.
      rewrite IH by lia. by rewrite Hstep, Nat.iter_succ_r.
    + replace (getAccount_fuel accountID c) with 0%nat
        by (unfold getAccount_fuel; lia).
      cbn. by rewrite bool_decide_eq_false_2.
Qed.

Lemma getAccount_iter accountID c :
  getAccount accountID c =
    Some (accounts_at accountID
            (Nat.iter (getAccount_fuel accountID c) push_new c),
          Nat.iter (getAccount_fuel accountID c) push_new c).
Proof. unfold getAccount. by rewrite getAccount_loop_iter. Qed.

Lemma iter_push_new_shape (n : nat) c :
  accounts (Nat.iter n push_new c).2 =
    accounts c.2 ++ seq (length (accountObjs c.1)) n ∧
  length (accountObjs (Nat.iter n push_new c).1) =
    (length (accountObjs c.1) + n)%nat.
Proof.
  induction n as [|n [IHa IHo]].
  - cbn. split; [by rewrite app_nil_r|lia].
  - rewrite Nat.iter_succ. unfold push_new at 1 3. cbn.
    rewrite IHa, IHo. split.
    + by rewrite cons_seq, seq_S, app_assoc.
    + rewrite length_app. cbn. lia.
Qed.

Lemma accounts_length_iter (n : nat) c :
  accounts_length (Nat.iter n push_new c) = accounts_length c + Z.of_nat n.
Proof.
  unfold accounts_length. destruct (iter_push_new_shape n c) as [-> _].
  rewrite length_app, length_seq. lia.
Qed.

(** Two calls in a row are one call for the larger id. *)
Lemma getAccount_then a b c :
  ∃ r1 c1 r2,
    getAccount a c = Some (r1, c1) ∧
    getAccount b c1 =
      Some (r2, Nat.iter (getAccount_fuel (Z.max a b) c) push_new c).
Proof.
  eexists _, _, _. split; [apply getAccount_iter|].
  rewrite getAccount_iter.
  set (n1 := getAccount_fuel a c).
  assert (Hn : (getAccount_fuel b (Nat.iter n1 push_new c) + n1)%nat =
               getAccount_fuel (Z.max a b) c).
  { unfold getAccount_fuel. rewrite accounts_length_iter.
    unfold n1, getAccount_fuel. lia. }
  by rewrite <- Nat.iter_add, Hn.
Qed.

Lemma dense_extended c c' : extended c c' → dense c → dense c'.
Proof.
  intros (Ha & Ho & Hn & _) Hd i l Hl.
  destruct (decide (i < length (accounts c.2))%nat) as [Hlt|Hge].
  - destruct (lookup_lt_is_Some_2 (accounts c.2) i Hlt) as [l' Hl'].
    pose proof (prefix_lookup_Some _ _ _ _ Hl' Ha) as Hsame.
    assert (l' = l) as -> by congruence.
    destruct (Hd i l Hl') as (a & Hobj & Hid). exists a.
    split; [by eapply prefix_lookup_Some|done].
  - destruct (Hn i l) as [_ Hnew]; [lia|done|]. by eexists.
Qed.

Lemma dense_accountIds_kept h h' (s : t any) :
  accountIds_kept h h' → dense (h, s) → dense (h', s).
Proof.
  intros Hkept Hd i l Hl. destruct (Hd i l Hl) as (a & Hobj & Hid).
  destruct (Hkept l a Hobj) as (a' & Hobj' & Hid').
  exists a'. split; [done|]. cbn in *. congruence.
Qed.

(** [getAccount] on a dense state. *)
Lemma getAccount_dense_run accountID c :
  dense c → 0 ≤ accountID →
  ∃ l a c',
    getAccount accountID c = Some (Some l, c') ∧
    extended c c' ∧ dense c' ∧
    accounts c'.2 !! Z.to_nat accountID = Some l ∧
    accountObjs c'.1 !! l = Some a ∧
    AccountLeaf.accountId a = accountID.
Proof.
  intros Hd Hpos.
  destruct (getAccount_run accountID c) as (c' & Hget & Hext & Hlen).
  destruct (accounts_at_is_Some accountID c') as (l & Hat & Hl); [done|lia|].
  pose proof (dense_extended c c' Hext Hd) as Hd'.
  destruct (Hd' _ _ Hl) as (a & Hobj & Hid).
  exists l, a, c'. rewrite Hget, Hat. split_and!; try done. lia.
Qed.

(** X15: for an id below the length of the array [getAccount] changes
    nothing and allocates nothing; it returns the entry at that index, or
    [undefined] when the id is negative. *)
Theorem getAccount_within_length accountID c :
  accountID < accounts_length c →
  ∃ r, getAccount accountID c = Some (r, c) ∧
       (r = None ↔ accountID < 0) ∧
       (0 ≤ accountID → r = accounts c.2 !! Z.to_nat accountID).
Proof.
  intros Hlt. exists (accounts_at accountID c).
  split; [by apply getAccount_noop|]. unfold accounts_at.
  destruct (decide (0 ≤ accountID)) as [Hpos|Hneg].
  - rewrite bool_decide_eq_true_2 by done. split; [|done].
    destruct (accounts_at_is_Some accountID c Hpos Hlt) as (l & _ & Hl).
    rewrite Hl. split; [done|lia].
  - rewrite bool_decide_eq_false_2 by done. split; [|lia].
    split; [lia|done].
Qed.

(** X16: two calls of [getAccount] in a row end in the state that one call
    for the larger of the two ids gives, whichever of the two comes first. *)
Theorem getAccount_twice_max a b c :
  ∃ r1 c1 r2 c2 r,
    getAccount a c = Some (r1, c1) ∧
    getAccount b c1 = Some (r2, c2) ∧
    getAccount (Z.max a b) c = Some (r, c2) ∧
    ∃ r1' c1' r2',
      getAccount b c = Some (r1', c1') ∧
      getAccount a c1' = Some (r2', c2).
Proof.
  destruct (getAccount_then a b c) as (r1 & c1 & r2 & Hget1 & Hget2).
  destruct (getAccount_then b a c) as (r1' & c1' & r2' & Hget1' & Hget2').
  rewrite (Z.max_comm b a) in Hget2'.
  eexists r1, c1, r2, _, _. split_and!; [done|done|apply getAccount_iter|].
  by exists r1', c1', r2'.
Qed.

(** X17: [getAccount(accountID)] allocates exactly
    [max(0, accountID + 1 - accounts.length)] account objects, and appends
    their references to the array in the order of allocation. *)
Theorem getAccount_allocates accountID c :
  ∃ r c',
    getAccount accountID c = Some (r, c') ∧
    accounts c'.2 =
      accounts c.2 ++
      seq (length (accountObjs c.1))
          (Z.to_nat (accountID + 1 - accounts_length c)) ∧
    length (accountObjs c'.1) =
      (length (accountObjs c.1) +
       Z.to_nat (accountID + 1 - accounts_length c))%nat.
Proof.
  eexists _, _. split; [apply getAccount_iter|].
  apply iter_push_new_shape.
Qed.

(** X18: the state that the constructor builds from the empty array is
    dense: the [accountId] of every account of the array is its index. *)
Theorem new_empty_dense exchange h :
  ∃ c, new exchange None h = Some c ∧
       new exchange (Some []) h = Some c ∧
       dense c.
Proof.
  destruct (new_run (any := any) exchange None h) as (c & Hnew & Hext & _).
  exists c. split_and!; [done|done|].
  eapply dense_extended; [exact Hext|]. by intros i l Hl.
Qed.

(** X19: [getAccount] keeps a dense state dense, and on a dense state the
    account it returns for an id that is not negative exists in the store
    and has that id as [accountId]. *)
Theorem getAccount_dense accountID c :
  dense c → 0 ≤ accountID →
  ∃ l a c',
    getAccount accountID c = Some (Some l, c') ∧
    dense c' ∧
    accountObjs c'.1 !! l = Some a ∧
    AccountLeaf.accountId a = accountID.
Proof.
  intros Hd Hpos.
  destruct (getAccount_dense_run accountID c Hd Hpos)
    as (l & a & c' & Hget & _ & Hd' & _ & Hobj & Hid).
  by exists l, a, c'.
Qed.

(** X20: on a dense state [getAccount] returns different account objects for
    different ids. *)
Theorem getAccount_distinct a b c :
  dense c → 0 ≤ a → 0 ≤ b → a ≠ b →
  ∃ la c1 lb c2,
    getAccount a c = Some (Some la, c1) ∧
    getAccount b c1 = Some (Some lb, c2) ∧
    la ≠ lb.
Proof.
  intros Hd Ha Hb Hne.
  destruct (getAccount_dense_run a c Hd Ha)
    as (la & oa & c1 & Hget1 & _ & Hd1 & Hla & _).
  destruct (getAccount_dense_run b c1 Hd1 Hb)
    as (lb & ob & c2 & Hget2 & (Hpre & _) & Hd2 & Hlb & Hob & Hidb).
  exists la, c1, lb, c2. split_and!; [done|done|].
  intros ->. pose proof (prefix_lookup_Some _ _ _ _ Hla Hpre) as Hla2.
  destruct (Hd2 _ _ Hla2) as (oa' & Hoa' & Hida).
  assert (oa' = ob) as -> by congruence. lia.
Qed.

(** X21: on a dense state the chains [getAccount(id).getBalance(tokenID)]
    and [getAccount(id).getStorage(storageID)] never fail for an id that is
    not negative, and leave the state dense. *)
Theorem getAccount_then_accessor accountID c :
  dense c → 0 ≤ accountID →
  ∃ l c',
    getAccount accountID c = Some (Some l, c') ∧
    (∀ tokenID,
       ∃ lb h', AccountLeafOps.getBalance l tokenID c'.1 = Some (lb, h') ∧
                dense (h', c'.2)) ∧
    (∀ storageID,
       ∃ ls h', AccountLeafOps.getStorage l storageID c'.1 = Some (ls, h') ∧
                dense (h', c'.2)).
Proof.
  intros Hd Hpos.
  destruct (getAccount_dense_run accountID c Hd Hpos)
    as (l & a & [h1 s1] & Hget & _ & Hd' & _ & Hobj & _).
  exists l, (h1, s1). split; [done|]. cbn in *. split.
  - intros tokenID.
    destruct (getBalance_accountIds_kept l tokenID h1 a Hobj)
      as (lb & h' & Hgb & Hkept).
    exists lb, h'. split; [done|]. by eapply dense_accountIds_kept.
  - intros storageID.
    destruct (getStorage_accountIds_kept l storageID h1 a Hobj)
      as (ls & h' & Hgs & Hkept).
    exists ls, h'. split; [done|]. by eapply dense_accountIds_kept.
Qed.
End GetAccountProps.

(** ** The accounts that [getAccount] creates *)

Section NewAccountProps.
Context `{Constants} {any : Type}.
Import ExchangeState.
Implicit Types (c : config (any := any)) (accountID : Z).

(** X22: an account that [getAccount] creates, for an id at or beyond the
    length of the array, has no balances and no storage: its [getBalance]
    returns a new leaf of balance 0 for every token, and its [getStorage] a
    new zero leaf for every storageID. *)
Theorem getAccount_new_account_is_empty accountID c :
  accounts_length c ≤ accountID →
  ∃ l c',
    getAccount accountID c = Some (Some l, c') ∧
    accountObjs c.1 !! l = None ∧
    (∀ tokenID,
       ∃ lb h', AccountLeafOps.getBalance l tokenID c'.1 = Some (lb, h') ∧
                balanceObjs c.1 !! lb = None ∧
                BalanceLeaf.balance <$> balanceObjs h' !! lb = Some 0) ∧
    (∀ storageID,
       ∃ ls h', AccountLeafOps.getStorage l storageID c'.1 = Some (ls, h') ∧
                storageObjs c.1 !! ls = None ∧
                storageObjs h' !! ls = Some StorageLeaf.new).
Proof.
  intros Hge.
  assert (Hpos : 0 ≤ accountID) by (unfold accounts_length in Hge; lia).
  destruct (getAccount_run accountID c)
    as (c' & Hget & (_ & _ & Hn & _ & Hb & Hs & _) & Hlen).
  destruct (accounts_at_is_Some accountID c') as (l & Hat & Hl); [done|lia|].
  destruct (Hn (Z.to_nat accountID) l) as [Hold Hnew];
    [unfold accounts_length in Hge; lia|done|].
  exists l, c'. rewrite Hget, Hat. split_and!; [done|done| |].
  - intros tokenID. eexists _, _.
    split; [eapply getBalance_miss; [exact Hnew|done]|].
    cbn. rewrite Hb. split; [by apply lookup_ge_None|].
    rewrite lookup_app_r by done. by rewrite Nat.sub_diag.
  - intros storageID. eexists _, _.
    split; [eapply getStorage_miss; [exact Hnew|done]|].
    cbn. rewrite Hs. split; [by apply lookup_ge_None|].
    rewrite lookup_app_r by done. by rewrite Nat.sub_diag.
Qed.
End NewAccountProps.

(** ** The further theorems at concrete inputs *)

Section MoreWitnesses.
Import AccountLeafOps.
Local Existing Instance loopring_constants.

Lemma heap_account5_this : accountObjs heap_account5 !! 0%nat = Some (fresh 5).
Proof. reflexivity. Qed.

Lemma heap_account5_wf : leaf_maps_wf heap_account5 (fresh 5).
Proof. apply fresh_wf. Qed.

Lemma config_fresh_dense : dense config_fresh.
Proof.
  intros i l Hl. destruct i as [|i]; [|done].
  injection Hl as <-. by eexists.
Qed.

Lemma address_same_iff_congruent_witness :
  0 ≤ 17 + 16384 ∧ 0 ≤ 17 ∧
  (address (17 + 16384) = address 17 ↔
   ∃ k, 17 + 16384 - 17 = k * 2 ^ Z.of_nat BINARY_TREE_DEPTH_STORAGE).
Proof.
  split; [lia|]. split; [lia|].
  apply (address_same_iff_congruent (17 + 16384) 17); lia.
Defined.

Lemma address_mixed_sign_witness :
  -16384 < 0 ∧ 0 < 32768 ∧ address (-16384) = address 32768 ∧
  address (-16384) = 0 ∧ address 32768 = 0.
Proof.
  split; [lia|]. split; [lia|]. split; [reflexivity|].
  apply (address_mixed_sign (-16384) 32768); [lia|lia|reflexivity].
Defined.

Lemma getBalance_idempotent_witness :
  accountObjs heap_account5 !! 0%nat = Some (fresh 5) ∧
  ∃ l h', getBalance 0%nat 3 heap_account5 = Some (l, h') ∧
          getBalance 0%nat 3 h' = Some (l, h').
Proof.
  split; [reflexivity|].
  apply (getBalance_idempotent 0%nat 3 heap_account5 (fresh 5)). reflexivity.
Defined.

Lemma getStorage_same_address_witness :
  accountObjs heap_account5 !! 0%nat = Some (fresh 5) ∧
  address 17 = address (17 + 16384) ∧
  ∃ l h', getStorage 0%nat 17 heap_account5 = Some (l, h') ∧
          getStorage 0%nat (17 + 16384) h' = Some (l, h') ∧
          getStorage 0%nat (address 17) h' = Some (l, h').
Proof.
  split; [reflexivity|]. split; [reflexivity|].
  apply (getStorage_same_address 0%nat 17 (17 + 16384) heap_account5 (fresh 5));
    reflexivity.
Defined.

Lemma accessors_keep_leaf_maps_wf_witness :
  accountObjs heap_account5 !! 0%nat = Some (fresh 5) ∧
  leaf_maps_wf heap_account5 (fresh 5) ∧
  ∃ l h' a', getBalance 0%nat 3 heap_account5 = Some (l, h') ∧
             accountObjs h' !! 0%nat = Some a' ∧ leaf_maps_wf h' a'.
Proof.
  split; [reflexivity|]. split; [exact heap_account5_wf|].
  apply (accessors_keep_leaf_maps_wf 0%nat heap_account5 (fresh 5)
           heap_account5_this heap_account5_wf).
Defined.

Lemma getBalance_distinct_tokens_witness :
  accountObjs heap_account5 !! 0%nat = Some (fresh 5) ∧
  leaf_maps_wf heap_account5 (fresh 5) ∧ 3 ≠ 4 ∧
  ∃ l1 h1 l2 h2,
    getBalance 0%nat 3 heap_account5 = Some (l1, h1) ∧
    getBalance 0%nat 4 h1 = Some (l2, h2) ∧
    l1 ≠ l2 ∧
    getBalance 0%nat 3 h2 = Some (l1, h2).
Proof.
  split; [reflexivity|]. split; [exact heap_account5_wf|].
  split; [discriminate|].
  apply (getBalance_distinct_tokens 0%nat 3 4 heap_account5 (fresh 5)
           heap_account5_this heap_account5_wf).
  discriminate.
Defined.

Lemma getStorage_distinct_addresses_witness :
  accountObjs heap_account5 !! 0%nat = Some (fresh 5) ∧
  leaf_maps_wf heap_account5 (fresh 5) ∧ address 17 ≠ address 18 ∧
  ∃ l1 h1 l2 h2,
    getStorage 0%nat 17 heap_account5 = Some (l1, h1) ∧
    getStorage 0%nat 18 h1 = Some (l2, h2) ∧
    l1 ≠ l2 ∧
    getStorage 0%nat 17 h2 = Some (l1, h2).
Proof.
  split; [reflexivity|]. split; [exact heap_account5_wf|].
  split; [discriminate|].
  apply (getStorage_distinct_addresses 0%nat 17 18 heap_account5 (fresh 5)
           heap_account5_this heap_account5_wf).
  discriminate.
Defined.

Lemma getBalance_getStorage_commute_witness :
  accountObjs heap_account5 !! 0%nat = Some (fresh 5) ∧
  ∃ lb ls h1 h1' h2,
    getBalance 0%nat 3 heap_account5 = Some (lb, h1) ∧
    getStorage 0%nat 17 h1 = Some (ls, h2) ∧
    getStorage 0%nat 17 heap_account5 = Some (ls, h1') ∧
    getBalance 0%nat 3 h1' = Some (lb, h2).
Proof.
  split; [reflexivity|].
  apply (getBalance_getStorage_commute 0%nat 3 17 heap_account5 (fresh 5)).
  reflexivity.
Defined.

Lemma init_without_maps_wipes_witness :
  accountObjs heap_account5 !! 0%nat = Some (fresh 5) ∧
  ∃ h', init 0%nat "0x00000000000000000000000000000000000000aa" "1" "2" "0"
          "0" 7 None None heap_account5 = Some h' ∧
        balanceObjs h' = balanceObjs heap_account5.
Proof.
  split; [reflexivity|].
  destruct (init_without_maps_wipes 0%nat
              "0x00000000000000000000000000000000000000aa" "1" "2" "0" "0" 7
              heap_account5 (fresh 5) heap_account5_this)
    as (h' & Hinit & Hb & _).
  by exists h'.
Defined.

Lemma init_with_maps_hydrates_witness :
  accountObjs heap_account5 !! 0%nat = Some (fresh 5) ∧
  ∃ h', init 0%nat "0x00000000000000000000000000000000000000aa" "1" "2" "0"
          "0" 7 (Some {[3 := 0%nat]}) (Some ∅) heap_account5 = Some h' ∧
        getBalance 0%nat 3 h' = Some (0%nat, h').
Proof.
  split; [reflexivity|].
  destruct (init_with_maps_hydrates 0%nat
              "0x00000000000000000000000000000000000000aa" "1" "2" "0" "0" 7
              {[3 := 0%nat]} ∅ heap_account5 (fresh 5) heap_account5_this)
    as (h' & Hinit & Hb & _).
  exists h'. split; [exact Hinit|]. apply Hb. reflexivity.
Defined.

Lemma init_twice_witness :
  accountObjs heap_account5 !! 0%nat = Some (fresh 5) ∧
  ∃ h1 h2,
    init 0%nat "a" "1" "2" "3" "4" 5 None None heap_account5 = Some h1 ∧
    init 0%nat "b" "6" "7" "8" "9" 10 None None h1 = Some h2 ∧
    init 0%nat "b" "6" "7" "8" "9" 10 None None heap_account5 = Some h2.
Proof.
  split; [reflexivity|].
  destruct (init_twice 0%nat "a" "1" "2" "3" "4" 5 None None
              "b" "6" "7" "8" "9" 10 None None heap_account5 (fresh 5)
              heap_account5_this)
    as (h1 & h2 & a2 & H1 & H2 & H3 & _).
  by exists h1, h2.
Defined.

Lemma getBalance_init_round_trip_witness :
  accountObjs heap_account5 !! 0%nat = Some (fresh 5) ∧
  leaf_maps_wf heap_account5 (fresh 5) ∧
  ∃ l h1 h2,
    getBalance 0%nat 3 heap_account5 = Some (l, h1) ∧
    BalanceLeafOps.init l 1000 h1 = Some h2 ∧
    getBalance 0%nat 3 h2 = Some (l, h2) ∧
    BalanceLeaf.balance <$> balanceObjs h2 !! l = Some 1000.
Proof.
  split; [reflexivity|]. split; [exact heap_account5_wf|].
  destruct (getBalance_init_round_trip 0%nat 3 1000 heap_account5 (fresh 5)
              heap_account5_this heap_account5_wf)
    as (l & h1 & h2 & H1 & H2 & H3 & H4 & _).
  by exists l, h1, h2.
Defined.

Lemma getAccount_within_length_witness :
  -1 < ExchangeState.accounts_length config_fresh ∧
  ∃ r, ExchangeState.getAccount (-1) config_fresh = Some (r, config_fresh) ∧
       (r = None ↔ -1 < 0).
Proof.
  split; [reflexivity|].
  destruct (getAccount_within_length (-1) config_fresh eq_refl)
    as (r & Hget & Hnone & _).
  by exists r.
Defined.

Lemma getAccount_dense_witness :
  dense config_fresh ∧ 0 ≤ 5 ∧
  ∃ l a c',
    ExchangeState.getAccount 5 config_fresh = Some (Some l, c') ∧
    dense c' ∧
    accountObjs c'.1 !! l = Some a ∧
    AccountLeaf.accountId a = 5.
Proof.
  split; [exact config_fresh_dense|]. split; [lia|].
  apply (getAccount_dense 5 config_fresh config_fresh_dense). lia.
Defined.

Lemma getAccount_distinct_witness :
  dense config_fresh ∧ 0 ≤ 2 ∧ 0 ≤ 5 ∧ 2 ≠ 5 ∧
  ∃ la c1 lb c2,
    ExchangeState.getAccount 2 config_fresh = Some (Some la, c1) ∧
    ExchangeState.getAccount 5 c1 = Some (Some lb, c2) ∧
    la ≠ lb.
Proof.
  split; [exact config_fresh_dense|]. split; [lia|]. split; [lia|].
  split; [lia|].
  apply (getAccount_distinct 2 5 config_fresh config_fresh_dense); lia.
Defined.

Lemma getAccount_then_accessor_witness :
  dense config_fresh ∧ 0 ≤ 2 ∧
  ∃ l c' lb h',
    ExchangeState.getAccount 2 config_fresh = Some (Some l, c') ∧
    getBalance l 3 c'.1 = Some (lb, h') ∧
    dense (h', c'.2).
Proof.
  split; [exact config_fresh_dense|]. split; [lia|].
  destruct (getAccount_then_accessor 2 config_fresh config_fresh_dense)
    as (l & c' & Hget & Hbal & _); [lia|].
  destruct (Hbal 3) as (lb & h' & Hgb & Hd).
  by exists l, c', lb, h'.
Defined.

Lemma getAccount_new_account_is_empty_witness :
  ExchangeState.accounts_length config_fresh ≤ 5 ∧
  ∃ l c' lb h',
    ExchangeState.getAccount 5 config_fresh = Some (Some l, c') ∧
    getBalance l 3 c'.1 = Some (lb, h') ∧
    BalanceLeaf.balance <$> balanceObjs h' !! lb = Some 0.
Proof.
  split; [discriminate|].
  destruct (getAccount_new_account_is_empty 5 config_fresh)
    as (l & c' & Hget & _ & Hbal & _); [discriminate|].
  destruct (Hbal 3) as (lb & h' & Hgb & _ & Hzero).
  by exists l, c', lb, h'.
Defined.
End MoreWitnesses.
